(** * g-migrations: the document migration engine of [src/index.js]

    A shallow embedding of the module exported by [src/index.js] and the
    properties of its per-document migration chain ([migrateDocument]), its
    batch loop ([treatDocuments]), and its entry points ([executeMigrations],
    [doMigrations], [loadFiles]).

    Conventions of the embedding:
    - JavaScript numbers that the code uses as versions, ids and counters are
      integers ([Z]) or naturals ([nat]) here;
    - a document is a JavaScript object; its reserved field
      [migration_version] is either absent or an integer;
    - every asynchronous callback is one transition of a deterministic
      machine, the periodic timer being the only nondeterministic event. *)

From stdpp Require Import gmap strings list fin_maps relations.
From Stdlib Require Import ZArith Lia Sorted.

(** ** JavaScript values *)

Module Js.

(** Primitive values, as they occur in document fields and as arguments of
    continuations. *)
Inductive value :=
| VUndefined
| VNull
| VBool (b : bool)
| VNum (n : Z)
| VStr (s : string).

(** ToBoolean on primitives. *)
Definition truthy_value (v : value) : bool :=
  match v with
  | VUndefined | VNull => false
  | VBool b => b
  | VNum n => negb (n =? 0)%Z
  | VStr s => negb (String.eqb s "")
  end.

End Js.
Export Js.

(** ** Documents *)

(** A document of the store: its [_id], its version marker (the field named
    by [migrations.version_field], absent or an integer) and all its other
    fields. *)
Record document := Document {
  doc_id : string;
  migration_version : option Z;
  fields : gmap string value
}.

(** [doc[migrations.version_field] = n] *)
Definition set_version (doc : document) (n : Z) : document :=
  {| doc_id := doc_id doc; migration_version := Some n; fields := fields doc |}.

(** [doc[migrations.version_field] || 0] (line 75) *)
Definition version_of (doc : document) : Z :=
  match migration_version doc with
  | Some n => if (n =? 0)%Z then 0%Z else n
  | None => 0%Z
  end.

(** A JavaScript value that may be handed to a continuation: a primitive or
    an object, the objects of this program being documents. *)
Inductive jsval :=
| JPrim (v : value)
| JObj (d : document).

Abbreviation JUndefined := (JPrim VUndefined).
Abbreviation JNull := (JPrim VNull).
Abbreviation JBool b := (JPrim (VBool b)).

(** ToBoolean. *)
Definition truthy (v : jsval) : bool :=
  match v with
  | JPrim p => truthy_value p
  | JObj _ => true
  end.

(** [a || b] *)
Definition js_or (a b : jsval) : jsval := if truthy a then a else b.

(** [v !== null] *)
Definition not_null (v : jsval) : bool :=
  match v with
  | JPrim VNull => false
  | _ => true
  end.

(** [typeof v === 'object'] for a value that is not null. *)
Definition is_object (v : jsval) : bool :=
  match v with
  | JObj _ => true
  | JPrim _ => false
  end.

(** ** Migration steps *)

(** What a call [up(doc, cb)] of a transform does, as a function of the
    document it is handed.  The transform gets the live object (line 79) and
    may edit it: [in_place f doc] is that object as the transform leaves it.
    [f doc] is the value the transform hands to its continuation.  A
    transform is taken to call its continuation once. *)
Record transform := Transform {
  in_place : document → document;
  handed :> document → jsval
}.

(** A transform that edits nothing in place and hands over [g doc]. *)
Definition yielding (g : document → jsval) : transform :=
  {| in_place := λ d, d; handed := g |}.

(** A step object as the loader leaves it in [migrations.steps]: its [id] and
    its [up] property, [up = Some f] when [typeof up === 'function']. *)
Record step := Step {
  id : Z;
  up : option transform
}.

(** [migrations.steps[version]]: [None] is [undefined] (index out of range). *)
Definition steps_at (steps : list step) (version : Z) : option step :=
  if (version <? 0)%Z then None else steps !! Z.to_nat version.

(** ** The per-document chain: [migrateDocument] (lines 74-94) *)

Inductive js_error := TypeError.

(** What a call of [migrateDocument] comes to: [callback(doc, modified)] was
    invoked, the TypeError of lines 78 or 82 was thrown, or the callback has
    not been called when the fuel is spent.  A chain that never calls back
    is [Unfinished] at every fuel: the program then goes on for ever, or,
    when its transforms call back before they return, ends when the stack
    overflows; either way its callback is not called. *)
Inductive outcome :=
| Returned (doc : document) (modified : jsval)
| Threw (e : js_error)
| Unfinished.

Fixpoint migrateDocument (fuel : nat) (steps : list step) (doc : document)
    (up_to : Z) (modified : jsval) : outcome :=
  match fuel with
  | O => Unfinished
  | S fuel' =>
    let version := version_of doc in
    let migration := steps_at steps version in
    if (version <? up_to)%Z then
      match migration with
      | None => Threw TypeError            (* [migration.up] on [undefined] *)
      | Some m =>
        match up m with
        | Some f =>
          let new_doc := f doc in
          match js_or new_doc (JObj (in_place f doc)) with
          | JObj d =>
            migrateDocument fuel' steps (set_version d (id m)) up_to
              (js_or modified (JBool (not_null new_doc)))
          | JPrim _ => Threw TypeError     (* strict mode: property of a primitive *)
          end
        | None => Returned doc modified
        end
      end
    else Returned doc modified
  end.

(** The values the applied transforms hand to their continuations, in the
    order of the chain. *)
Fixpoint yields (fuel : nat) (steps : list step) (doc : document)
    (up_to : Z) : list jsval :=
  match fuel with
  | O => []
  | S fuel' =>
    let version := version_of doc in
    if (version <? up_to)%Z then
      match steps_at steps version with
      | None => []
      | Some m =>
        match up m with
        | Some f =>
          let new_doc := f doc in
          match js_or new_doc (JObj (in_place f doc)) with
          | JObj d => new_doc :: yields fuel' steps (set_version d (id m)) up_to
          | JPrim _ => [new_doc]
          end
        | None => []
        end
      end
    else []
  end.

(** A document on which a call of [migrateDocument] stops at once: the target
    is reached, or the step at its version has no [up] function. *)
Definition at_rest (steps : list step) (doc : document) (up_to : Z) : Prop :=
  (up_to ≤ version_of doc)%Z
  ∨ ∃ m, steps_at steps (version_of doc) = Some m ∧ up m = None.

(** [modified ? 1 : 0] *)
Definition wasModified (modified : jsval) : bool := truthy modified.

(** ** The collaborators: store, timers, logger, loader *)

(** Modelled from the spec: the document store is an external collaborator
    (section 6).  [view] returns the documents whose version marker is at most
    [endkey], at most [limit] of them, in the store's key order; [insert]
    creates or overwrites the document with the given [_id].  Both may fail:
    [view_errors] scripts the outcome of the coming queries and
    [insert_errors] that of the coming inserts, one entry per call, [Some err]
    making that call fail with [err]. *)
Record database := Database {
  docs : gmap string document;
  view_errors : list (option string);
  insert_errors : list (option string)
}.

Definition candidates (endkey : Z) (store : gmap string document) :
    gmap string document :=
  filter (λ kd, (version_of kd.2 ≤ endkey)%Z) store.

Definition rows_of (endkey : Z) (limit : option nat)
    (store : gmap string document) : list document :=
  let all := (map_to_list (candidates endkey store)).*2 in
  match limit with
  | Some n => take n all
  | None => all
  end.

(** [db.view('migrations', 'list', {endkey, limit}, function (err, result))] *)
Definition view (db : database) (endkey : Z) (limit : option nat) :
    database * (string + list document) :=
  match view_errors db with
  | Some err :: rest =>
    ({| docs := docs db; view_errors := rest;
        insert_errors := insert_errors db |}, inl err)
  | _ =>
    ({| docs := docs db; view_errors := tail (view_errors db);
        insert_errors := insert_errors db |},
     inr (rows_of endkey limit (docs db)))
  end.

(** [db.insert(doc, function () ...)]: a failed insert stores nothing.  Its
    callback (line 125) takes no parameter, so the failure shows nowhere. *)
Definition insert_doc (db : database) (doc : document) : database :=
  match insert_errors db with
  | Some _ :: rest =>
    {| docs := docs db; view_errors := view_errors db;
       insert_errors := rest |}
  | _ =>
    {| docs := <[doc_id doc := doc]> (docs db);
       view_errors := view_errors db;
       insert_errors := tail (insert_errors db) |}
  end.

(** The timers of the event loop: [setInterval] hands out fresh ids,
    [clearInterval] retires one. *)
Record timers := Timers {
  next_timer : nat;
  active : gset nat
}.

Definition setInterval (t : timers) : timers * nat :=
  ({| next_timer := S (next_timer t); active := {[next_timer t]} ∪ active t |},
   next_timer t).

Definition clearInterval (t : timers) (i : option nat) : timers :=
  match i with
  | Some n => {| next_timer := next_timer t; active := active t ∖ {[n]} |}
  | None => t
  end.

(** What [logger.info] is called with (lines 156, 168, 174). *)
Inductive log_entry :=
| LogStart (up_to : Z)
| LogProgress (done total : nat)
| LogSummary (done written : nat).

(** ** The module's state *)

(** The object [migrations] (lines 25-53). *)
Record migrations_t := Migrations {
  last : option Z;
  loaded : bool;
  steps : list step
}.

(** The object [progress] (lines 60-65). *)
Record progress_t := Progress {
  done : nat;
  total : nat;
  written : nat;
  intervalId : option nat
}.

(** Everything one instance of the module reads and writes; [loads] counts
    the runs of the step loader and [log] lists the logger's lines, the most
    recent first. *)
Record world := World {
  migrations : migrations_t;
  progress : progress_t;
  db : database;
  clock : timers;
  log : list log_entry;
  loads : nat
}.

Definition with_migrations (w : world) (m : migrations_t) : world :=
  {| migrations := m; progress := progress w; db := db w; clock := clock w;
     log := log w; loads := loads w |}.

Definition with_progress (w : world) (p : progress_t) : world :=
  {| migrations := migrations w; progress := p; db := db w; clock := clock w;
     log := log w; loads := loads w |}.

Definition with_db (w : world) (d : database) : world :=
  {| migrations := migrations w; progress := progress w; db := d;
     clock := clock w; log := log w; loads := loads w |}.

Definition with_clock (w : world) (t : timers) : world :=
  {| migrations := migrations w; progress := progress w; db := db w;
     clock := t; log := log w; loads := loads w |}.

Definition logger_info (w : world) (e : log_entry) : world :=
  {| migrations := migrations w; progress := progress w; db := db w;
     clock := clock w; log := e :: log w; loads := loads w |}.

(** The state of a fresh instance (lines 25-65) over a given store. *)
Definition fresh (store : database) : world :=
  {| migrations := {| last := None; loaded := false; steps := [] |};
     progress := {| done := 0; total := 0; written := 0; intervalId := None |};
     db := store;
     clock := {| next_timer := 0; active := ∅ |};
     log := [];
     loads := 0 |}.

(** ** The batch run as a machine *)

(** Where a run stands between two callbacks. *)
Inductive pending :=
| AwaitCount (up_to : Z)
    (* the count query of line 158 is in flight *)
| AwaitPage (up_to : Z) (limit : nat)
    (* the page query of line 110 is in flight *)
| Iterating (up_to : Z) (limit : nat) (rows : list document)
    (* async.eachLimit still has [rows] to hand to its iterator *)
| Called (err : option string)
    (* the caller's callback was invoked, with an Error or with nothing *)
| Crashed (e : js_error)
    (* an exception escaped a callback *)
| Stalled.
    (* a document's chain never called back *)

Definition config : Type := world * pending.

(** [a || b] where [a] is a number or null and [b] a number. *)
Definition num_or (a : option Z) (b : Z) : Z :=
  match a with
  | Some n => if (n =? 0)%Z then b else n
  | None => b
  end.

(** [a || null] where [a] is a number, null or undefined. *)
Definition num_or_null (a : option Z) : option Z :=
  match a with
  | Some n => if (n =? 0)%Z then None else Some n
  | None => None
  end.

(** [executeMigrations], up to its count query (lines 149-158). *)
Definition executeMigrations (w : world) (up_to : option Z) : config :=
  match last (migrations w) with
  | None => (w, Called (Some "No migrations found"))
  | Some l =>
    let up_to := num_or up_to l in
    (logger_info w (LogStart up_to), AwaitCount up_to)
  end.

(** The completion function [executeMigrations] passes to [treatDocuments]
    (lines 173-177): it takes no parameter, so whatever [treatDocuments]
    calls it with is dropped. *)
Definition batch_done (w : world) (_ : option string) : config :=
  let w := logger_info w
             (LogSummary (done (progress w)) (written (progress w))) in
  let w := with_clock w (clearInterval (clock w) (intervalId (progress w))) in
  (w, Called None).

(** The callback of the count query (lines 158-173). *)
Definition on_count (w : world) (up_to : Z) : config :=
  let (db', result) := view (db w) (up_to - 1) None in
  let w := with_db w db' in
  match result with
  | inl err => (w, Called (Some ("Unable to retrive data: " +:+ err)))
  | inr rows =>
    let (clock', timer) := setInterval (clock w) in
    let p := progress w in
    let w := with_progress w
               {| done := done p; total := length rows; written := written p;
                  intervalId := Some timer |} in
    (with_clock w clock', AwaitPage up_to 512)
  end.

(** [treatDocuments]: the callback of its page query (lines 110-119). *)
Definition treatDocuments (w : world) (up_to : Z) (limit : nat) : config :=
  let (db', result) := view (db w) (up_to - 1) (Some limit) in
  let w := with_db w db' in
  match result with
  | inl err => batch_done w (Some ("Unable to retrive data: " +:+ err))
  | inr [] => batch_done w None
  | inr rows => (w, Iterating up_to limit rows)
  end.

Section Machine.

(** How long a document's chain may run before it counts as stalled. *)
Variable patience : nat.

(** The iterator of [async.eachLimit] on one row (lines 122-135), from the
    call of [migrateDocument] to the callback of [db.insert].  The rows of a
    page are served one after the other here; with up to 32 of them in
    flight the callbacks of [db.insert] may come in another order, each
    adding to the counters what it adds here. *)
Definition treat_row (w : world) (up_to : Z) (row : document) :
    world + pending :=
  match migrateDocument patience (steps (migrations w)) row up_to JUndefined with
  | Returned doc modified =>
    (* [typeof doc === 'object'] holds of every document *)
    let w := with_db w (insert_doc (db w) doc) in
    let p := progress w in
    inl (with_progress w
           {| done := done p + 1; total := total p;
              written := written p + (if truthy modified then 1 else 0);
              intervalId := intervalId p |})
  | Threw e => inr (Crashed e)
  | Unfinished => inr Stalled
  end.

(** One callback of the run; [None] once the run is over. *)
Definition next (c : config) : option config :=
  let (w, k) := c in
  match k with
  | AwaitCount up_to => Some (on_count w up_to)
  | AwaitPage up_to limit => Some (treatDocuments w up_to limit)
  | Iterating up_to limit [] => Some (w, AwaitPage up_to limit)
  | Iterating up_to limit (row :: rows) =>
    match treat_row w up_to row with
    | inl w' => Some (w', Iterating up_to limit rows)
    | inr k' => Some (w, k')
    end
  | Called _ | Crashed _ | Stalled => None
  end.

(** The periodic function of line 167. *)
Definition tick (w : world) : world :=
  logger_info w (LogProgress (done (progress w)) (total (progress w))).

Definition ticking (w : world) : Prop :=
  ∃ i, intervalId (progress w) = Some i ∧ i ∈ active (clock w).

(** The events of a run: a callback, or a tick of the progress timer. *)
Inductive step_to : config → config → Prop :=
| step_callback c c' : next c = Some c' → step_to c c'
| step_tick w k : ticking w → step_to (w, k) (tick w, k).

(** A run left alone (no tick shown) for at most [fuel] callbacks. *)
Fixpoint run (fuel : nat) (c : config) : config :=
  match fuel with
  | O => c
  | S fuel' =>
    match next c with
    | Some c' => run fuel' c'
    | None => c
    end
  end.

End Machine.

(** ** Loading the steps: [loadFiles] (lines 209-224) *)

Section ArraySort.

Context {A : Type}.

(** ToString of the elements. *)
Variable toString : A → string.

Fixpoint sort_insert (x : A) (l : list A) : list A :=
  match l with
  | [] => [x]
  | y :: l' =>
    if String.leb (toString x) (toString y) then x :: l
    else y :: sort_insert x l'
  end.

(** [Array.prototype.sort] called with no comparator, on a dense array: the
    elements are ordered by their string conversions, equal ones keeping
    their order (the sort is stable since ES2019; before that, V8 kept the
    order of equal elements in arrays of at most 10 elements only). *)
Definition Array_sort (l : list A) : list A := foldr sort_insert [] l.

(** The order of that sort. *)
Definition sorts_before (x y : A) : Prop :=
  String.leb (toString x) (toString y) = true.

End ArraySort.

(** ToString of a step object: a step is a plain object. *)
Definition step_toString (_ : step) : string := "[object Object]".

Section Instance.

(** What one run of the autoloader does to the array [migrations.steps]:
    the migration files it loads register their step objects there. *)
Variable loader : list step → list step.

Variable patience : nat.

(** [loadFiles]: the loader runs, then lines 219-220.  Reading [.id] of
    [steps[steps.length - 1]] throws when the array is empty. *)
Definition loadFiles (w : world) : world * option js_error :=
  let m := migrations w in
  let w := {| migrations := m; progress := progress w; db := db w;
              clock := clock w; log := log w; loads := S (loads w) |} in
  let sorted := Array_sort step_toString (loader (steps m)) in
  match steps_at sorted (Z.of_nat (length sorted) - 1) with
  | None =>
    (with_migrations w
       {| last := last m; loaded := loaded m; steps := sorted |},
     Some TypeError)
  | Some s =>
    (with_migrations w
       {| last := num_or_null (Some (id s)); loaded := loaded m;
          steps := sorted |},
     None)
  end.

(** [doMigrations] (lines 189-202), up to the first query of
    [executeMigrations]. *)
Definition doMigrations (w : world) (up_to : option Z) : config :=
  let up_to := num_or_null up_to in
  if negb (loaded (migrations w)) then
    match loadFiles w with
    | (w', None) => executeMigrations w' up_to
    | (w', Some e) => (w', Crashed e)
    end
  else executeMigrations w up_to.

(** A call of the entry point, followed until its run is over (or [fuel]
    callbacks have been served). *)
Definition call (fuel : nat) (w : world) (up_to : option Z) : config :=
  run patience fuel (doMigrations w up_to).

(** Calls of the entry point one after the other on one instance. *)
Fixpoint session (fuel : nat) (w : world) (calls : list (option Z)) : world :=
  match calls with
  | [] => w
  | up_to :: calls' => session fuel (call fuel w up_to).1 calls'
  end.

End Instance.

(** * Worked inputs *)

Module Examples.

Definition blank (name : string) (v : option Z) : document :=
  {| doc_id := name; migration_version := v; fields := ∅ |}.

(** The transform of scenario A's first step: it adds the field [x: 1]. *)
Definition with_x (d : document) : document :=
  {| doc_id := doc_id d; migration_version := migration_version d;
     fields := <["x" := VNum 1]> (fields d) |}.

Definition add_x : transform := yielding (λ d, JObj (with_x d)).

Definition yield_null : transform := yielding (λ _, JNull).
Definition yield_undefined : transform := yielding (λ _, JUndefined).

(** A transform that adds the field [x: 1] to the object it is handed and
    then calls its continuation with no argument. *)
Definition edit_in_place : transform :=
  {| in_place := with_x; handed := λ _, JUndefined |}.

(** Scenario A: two steps, stored at the indices 0 and 1. *)
Definition scenarioA : list step :=
  [ {| id := 1; up := Some add_x |}; {| id := 2; up := Some yield_null |} ].

End Examples.


(** ** Vocabulary of the statements *)

(** The target a run works towards, once [executeMigrations] has resolved it. *)
Definition target_of (k : pending) : option Z :=
  match k with
  | AwaitCount t | AwaitPage t _ | Iterating t _ _ => Some t
  | Called _ | Crashed _ | Stalled => None
  end.

(** Every document of the store is kept under its own [_id]. *)
Definition store_ok (store : gmap string document) : Prop :=
  ∀ k d, store !! k = Some d → doc_id d = k.

(** No insert into the store is scripted to fail. *)
Definition no_insert_faults (d : database) : Prop :=
  Forall (λ e, e = None) (insert_errors d).

(** The chain of [d] hands back a document with the same [_id] whose version
    is at or above the target. *)
Definition advances (patience : nat) (steps : list step) (T : Z)
    (d : document) : Prop :=
  ∃ d' modified,
    migrateDocument patience steps d T JUndefined = Returned d' modified
    ∧ doc_id d' = doc_id d ∧ (T ≤ version_of d')%Z.

(** The inequality of the progress counters. *)
Definition counters_ok (p : progress_t) : Prop :=
  written p ≤ done p ∧ done p ≤ total p.

(** The progress timer of the run was cancelled. *)
Definition timer_cancelled (w : world) : Prop :=
  ∀ i, intervalId (progress w) = Some i → i ∉ active (clock w).

Section RunInvariant.

Variables (patience : nat) (steps0 : list step) (T : Z).

(** What holds of the counters at each stage of a run to the target [T]:
    the documents done so far and those still below the target are
    together at most [total]. *)
Definition pending_ok (w : world) (k : pending) : Prop :=
  let p := progress w in
  let waiting := size (candidates (T - 1) (docs (db w))) in
  match k with
  | AwaitCount t => t = T ∧ done p = 0
  | AwaitPage t _ => t = T ∧ done p + waiting ≤ total p
  | Iterating t _ rows =>
    t = T ∧ done p + waiting ≤ total p
    ∧ NoDup (doc_id <$> rows)
    ∧ ∀ r, r ∈ rows →
           docs (db w) !! doc_id r = Some r ∧ (version_of r ≤ T - 1)%Z
  | Called _ | Crashed _ | Stalled => done p ≤ total p
  end.

Definition run_inv (c : config) : Prop :=
  no_insert_faults (db c.1)
  ∧ steps (migrations c.1) = steps0
  ∧ store_ok (docs (db c.1))
  ∧ (∀ d, docs (db c.1) !! doc_id d = Some d → (version_of d < T)%Z →
          advances patience steps0 T d)
  ∧ written (progress c.1) ≤ done (progress c.1)
  ∧ pending_ok c.1 c.2.

End RunInvariant.

(** The world a call of [doMigrations] executes in: the given one when the
    steps count as loaded, else the one [loadFiles] leaves, if it returns. *)
Definition after_load (loader : list step → list step) (w : world) :
    option world :=
  if negb (loaded (migrations w)) then
    match loadFiles loader w with
    | (w', None) => Some w'
    | (_, Some _) => None
    end
  else Some w.

Module Worlds.

Import Examples.

(** A loader whose files register the two steps of scenario A. *)
Definition loadA (_ : list step) : list step := scenarioA.

(** A loader whose files register step 2 before step 1. *)
Definition load21 (_ : list step) : list step :=
  [ {| id := 2; up := Some yield_null |}; {| id := 1; up := Some add_x |} ].

(** A loader with one file, whose step has no [up] function. *)
Definition load_stamp (_ : list step) : list step :=
  [ {| id := 1; up := None |} ].

(** A loader whose first step yields undefined. *)
Definition load_undefined (_ : list step) : list step :=
  [ {| id := 1; up := Some yield_undefined |} ].

(** A loader whose last step has the id 7. *)
Definition load7 (_ : list step) : list step :=
  [ {| id := 7; up := Some yield_null |} ].

(** A store with the single document [a], at version 0. *)
Definition one_doc : database :=
  {| docs := {["a" := blank "a" None]}; view_errors := [];
     insert_errors := [] |}.

(** The same store; its count query succeeds and its first page query
    fails with [boom]. *)
Definition failing_page : database :=
  {| docs := {["a" := blank "a" None]};
     view_errors := [None; Some "boom"];
     insert_errors := [] |}.

End Worlds.

(** ** Vocabulary of the further properties *)


(** The transforms a chain applies, each with the document it is handed. *)
Fixpoint applications (fuel : nat) (steps : list step) (doc : document)
    (up_to : Z) : list (transform * document) :=
  match fuel with
  | O => []
  | S fuel' =>
    let version := version_of doc in
    if (version <? up_to)%Z then
      match steps_at steps version with
      | None => []
      | Some m =>
        match up m with
        | Some f =>
          match js_or (f doc) (JObj (in_place f doc)) with
          | JObj d =>
            (f, doc) :: applications fuel' steps (set_version d (id m)) up_to
          | JPrim _ => [(f, doc)]
          end
        | None => []
        end
      end
    else []
  end.

(** Whether a call of [migrateDocument] called its callback. *)
Definition calls_back (o : outcome) : bool :=
  match o with
  | Returned _ _ => true
  | Threw _ | Unfinished => false
  end.



(** No query of the store is scripted to fail. *)
Definition no_faults (d : database) : Prop :=
  Forall (λ e, e = None) (view_errors d).

Section Batch.

Variables (patience : nat) (steps0 : list step) (T : Z).

(** The store and the registry a run to [T] can work through: no insert
    fails, the registry is [steps0], documents are kept under their [_id],
    and the chain of every document below [T] advances it to [T] or beyond. *)
Definition ready (w : world) : Prop :=
  no_insert_faults (db w)
  ∧ steps (migrations w) = steps0
  ∧ store_ok (docs (db w))
  ∧ ∀ d, docs (db w) !! doc_id d = Some d → (version_of d < T)%Z →
         advances patience steps0 T d.

(** What a run to [T] stores in place of a document: what its chain hands
    back when the document is below [T], the document itself otherwise. *)
Definition migrated (d : document) : document :=
  if decide (version_of d < T)%Z then
    match migrateDocument patience steps0 d T JUndefined with
    | Returned d' _ => d'
    | _ => d
    end
  else d.

(** Whether the chain of a document below [T] sets the flag. *)
Definition flagged (d : document) : bool :=
  match migrateDocument patience steps0 d T JUndefined with
  | Returned _ modified => truthy modified
  | _ => false
  end.

(** The documents below [T] whose chain sets the flag. *)
Definition flagged_candidates (store : gmap string document) :
    gmap string document :=
  filter (λ kd, (version_of kd.2 ≤ T - 1)%Z ∧ flagged kd.2 = true) store.

End Batch.

(** Nothing of the run shows in [w] yet: counters, documents and timers are
    those of [w0]. *)
Definition untouched (w0 w : world) : Prop :=
  progress w = progress w0 ∧ docs (db w) = docs (db w0) ∧ clock w = clock w0.

(** The two errors a run reports. *)
Definition reported (msg : string) : Prop :=
  msg = "No migrations found" ∨ ∃ e, msg = ("Unable to retrive data: " +:+ e).

(** While the count query is in flight, and when the callback gets an error,
    nothing of the run shows. *)
Definition error_inv (w0 : world) (c : config) : Prop :=
  match c.2 with
  | AwaitCount _ => untouched w0 c.1
  | Called (Some msg) => untouched w0 c.1 ∧ reported msg
  | _ => True
  end.

(** The run's timer is the one timer added to the set [A0]. *)
Definition own_timer (A0 : gset nat) (w : world) : Prop :=
  ∃ i, intervalId (progress w) = Some i ∧ (i ∉ A0)
       ∧ active (clock w) = {[i]} ∪ A0.

(** The timers at each stage of a run that found the timers [A0] active. *)
Definition timer_inv (A0 : gset nat) (c : config) : Prop :=
  match c.2 with
  | AwaitCount _ =>
    active (clock c.1) = A0 ∧ (next_timer (clock c.1) ∉ A0)
  | Called _ => active (clock c.1) = A0
  | AwaitPage _ _ | Iterating _ _ _ | Crashed _ | Stalled => own_timer A0 c.1
  end.

(** Once the count query has answered, [total] is [n]. *)
Definition total_inv (n : nat) (store0 : gmap string document) (T : Z)
    (c : config) : Prop :=
  match c.2 with
  | AwaitCount t => t = T ∧ docs (db c.1) = store0
  | Called (Some _) => True
  | _ => total (progress c.1) = n
  end.

(** Every chain that hands a document back hands it back under the [_id] it
    came with. *)
Definition keeps_id (patience : nat) (steps : list step) (T : Z) : Prop :=
  ∀ d d' modified,
    migrateDocument patience steps d T JUndefined = Returned d' modified →
    doc_id d' = doc_id d.

(** Whether the caller's callback was called. *)
Definition called (k : pending) : bool :=
  match k with
  | Called _ => true
  | _ => false
  end.

(** A document below the target whose step has no [up] function. *)
Definition stuck (steps : list step) (T : Z) (r : document) : Prop :=
  (version_of r < T)%Z
  ∧ ∃ m, steps_at steps (version_of r) = Some m ∧ up m = None.

(** The stages of a run to [T] over a store that holds the stuck document
    [r0]: the callback is not among them. *)
Definition stuck_inv (steps0 : list step) (T : Z) (r0 : document)
    (c : config) : Prop :=
  no_faults (db c.1)
  ∧ steps (migrations c.1) = steps0
  ∧ store_ok (docs (db c.1))
  ∧ docs (db c.1) !! doc_id r0 = Some r0
  ∧ match c.2 with
    | AwaitCount t => t = T
    | AwaitPage t lim => t = T ∧ 0 < lim
    | Iterating t lim rows =>
      t = T ∧ 0 < lim ∧ ∀ r, r ∈ rows → doc_id r = doc_id r0 → r = r0
    | Called _ => False
    | Crashed _ | Stalled => True
    end.

Module Loops.

Import Examples.

(** A registry whose step at index 0 is stamped with the id 0. *)
Definition self_stamping : list step :=
  [ {| id := 0; up := Some yield_null |} ].

(** A transform that yields [true]. *)
Definition yield_true : transform := yielding (λ _, JBool true).

Definition truthy_step : list step :=
  [ {| id := 1; up := Some yield_true |} ].

End Loops.

Module Runs.

(** A fresh instance over the store of one document, once the files of
    scenario A are loaded. *)
Definition started : world :=
  (loadFiles Worlds.loadA (fresh Worlds.one_doc)).1.

(** A store whose first query fails with [boom]. *)
Definition failing_count : database :=
  {| docs := {["a" := Examples.blank "a" None]};
     view_errors := [Some "boom"]; insert_errors := [] |}.

(** The same instance over a store whose document is already at version 2. *)
Definition migrated_store : world :=
  with_db started
    {| docs := {["a" := Examples.blank "a" (Some 2%Z)]}; view_errors := [];
       insert_errors := [] |}.

(** A fresh instance over the store of one document, once a single step
    without [up] function is loaded. *)
Definition stamped : world :=
  (loadFiles Worlds.load_stamp (fresh Worlds.one_doc)).1.

End Runs.
(** * The per-document chain *)

Example scenarioA_run :
  migrateDocument 3 Examples.scenarioA (Examples.blank "a" (Some 0%Z)) 2 JUndefined
  = Returned {| doc_id := "a"; migration_version := Some 2%Z;
                fields := {["x" := VNum 1]} |} (JBool true).
Proof. vm_compute. reflexivity. Qed.

Section Chain.

Implicit Types (steps : list step) (doc : document) (up_to : Z).
Implicit Types (modified : jsval) (fuel : nat).

Lemma truthy_or_bool modified (b : bool) :
  truthy (js_or modified (JBool b)) = truthy modified || b.
Proof. unfold js_or. destruct (truthy modified) eqn:E; simpl; auto. Qed.

Lemma js_or_falsy (v : jsval) doc :
  truthy v = false → js_or v (JObj doc) = JObj doc.
Proof. unfold js_or. intros ->. reflexivity. Qed.

(** The equation of a call that stops: the target is reached. *)
Lemma migrate_stop_target fuel steps doc up_to modified :
  (up_to ≤ version_of doc)%Z →
  migrateDocument (S fuel) steps doc up_to modified = Returned doc modified.
Proof.
  intros H. simpl.
  destruct (version_of doc <? up_to)%Z eqn:E; [apply Z.ltb_lt in E; lia | done].
Qed.

(** The equation of a call that stops: the step has no [up] function. *)
Lemma migrate_stop_no_up fuel steps doc up_to modified m :
  steps_at steps (version_of doc) = Some m → up m = None →
  migrateDocument (S fuel) steps doc up_to modified = Returned doc modified.
Proof.
  intros Hm Hup. simpl. rewrite Hm, Hup.
  destruct (version_of doc <? up_to)%Z; done.
Qed.

(** The equation of a call that applies a step whose transform hands a
    falsy value to its continuation. *)
Lemma migrate_falsy_yield fuel steps doc up_to modified m f :
  (version_of doc < up_to)%Z →
  steps_at steps (version_of doc) = Some m → up m = Some f →
  truthy (f doc) = false →
  migrateDocument (S fuel) steps doc up_to modified
  = migrateDocument fuel steps (set_version (in_place f doc) (id m)) up_to
      (js_or modified (JBool (not_null (f doc)))).
Proof.
  intros Hlt Hm Hup Hf. simpl.
  apply Z.ltb_lt in Hlt. rewrite Hlt, Hm, Hup.
  rewrite (js_or_falsy _ _ Hf). reflexivity.
Qed.

(** There is no step object at the index of the document's version. *)
Lemma migrate_no_step fuel steps doc up_to modified :
  (version_of doc < up_to)%Z →
  steps_at steps (version_of doc) = None →
  migrateDocument (S fuel) steps doc up_to modified = Threw TypeError.
Proof.
  intros Hlt Hm. simpl. apply Z.ltb_lt in Hlt. rewrite Hlt, Hm. reflexivity.
Qed.

Lemma returned_at_rest fuel steps doc up_to modified doc' modified' :
  migrateDocument fuel steps doc up_to modified = Returned doc' modified' →
  at_rest steps doc' up_to.
Proof.
  revert doc modified.
  induction fuel as [|fuel IH]; intros doc modified; simpl; [done|].
  destruct (version_of doc <? up_to)%Z eqn:Hlt.
  - destruct (steps_at steps (version_of doc)) as [m|] eqn:Hm; [|done].
    destruct (up m) as [f|] eqn:Hup.
    + destruct (js_or (f doc) (JObj (in_place f doc))) as [|d]; [done|]. apply IH.
    + intros [= <- <-]. right. eauto.
  - intros [= <- <-]. left. apply Z.ltb_ge in Hlt. done.
Qed.

Lemma at_rest_returns fuel steps doc up_to modified :
  at_rest steps doc up_to →
  migrateDocument (S fuel) steps doc up_to modified = Returned doc modified.
Proof.
  intros [H | (m & Hm & Hup)].
  - by apply migrate_stop_target.
  - by eapply migrate_stop_no_up.
Qed.

(** The flag handed to the callback, from the flag the chain starts with
    and the values its transforms yield. *)
Lemma returned_flag fuel steps doc up_to modified doc' modified' :
  migrateDocument fuel steps doc up_to modified = Returned doc' modified' →
  truthy modified'
  = truthy modified || existsb not_null (yields fuel steps doc up_to).
Proof.
  revert doc modified.
  induction fuel as [|fuel IH]; intros doc modified; simpl; [done|].
  destruct (version_of doc <? up_to)%Z eqn:Hlt.
  - destruct (steps_at steps (version_of doc)) as [m|] eqn:Hm; [|done].
    destruct (up m) as [f|] eqn:Hup.
    + destruct (js_or (f doc) (JObj (in_place f doc))) as [|d]; [done|].
      intros H. apply IH in H. rewrite H, truthy_or_bool. simpl.
      by rewrite orb_assoc.
    + intros [= <- <-]. simpl. by rewrite orb_false_r.
  - intros [= <- <-]. simpl. by rewrite orb_false_r.
Qed.


End Chain.

(** C1 (the code departs from the claim).  Scenario C on the registry of
    scenario A: the document is at version 5, the target is 10 and the array
    of steps has no element at index 5.  The call does not hand the document
    back: reading [migration.up] of [undefined] throws a TypeError, however
    long the chain is allowed to run. *)
Theorem migrate_without_step_throws :
  ∀ fuel,
    migrateDocument (S fuel) Examples.scenarioA
      (Examples.blank "c" (Some 5%Z)) 10 JUndefined
    = Threw TypeError.
Proof. intros fuel. by apply migrate_no_step. Qed.

(** C8.  A document whose version is at or above the target is handed back
    as it is, with the flag the call started with: undefined, which counts as
    "not modified". *)
Theorem migrate_at_target_is_identity :
  ∀ fuel steps (D : document) (T : Z),
    (T ≤ version_of D)%Z →
    migrateDocument (S fuel) steps D T JUndefined = Returned D JUndefined
    ∧ wasModified JUndefined = false.
Proof.
  intros fuel steps D T H. split; [|done]. by apply migrate_stop_target.
Qed.

(** C8 on a document of scenario A that is already at the target 2. *)
Lemma migrate_at_target_is_identity_witness :
  migrateDocument 1 Examples.scenarioA (Examples.blank "a" (Some 2%Z)) 2
    JUndefined
  = Returned (Examples.blank "a" (Some 2%Z)) JUndefined
  ∧ wasModified JUndefined = false.
Proof.
  apply (migrate_at_target_is_identity 0 Examples.scenarioA
           (Examples.blank "a" (Some 2%Z)) 2).
  vm_compute. discriminate.
Defined.

(** C9.  When a chain hands back a document, migrating that document again
    to the same target hands it back unchanged, and as "not modified". *)
Theorem remigrate_is_noop :
  ∀ fuel steps (D : document) (T : Z) modified D' modified',
    migrateDocument fuel steps D T modified = Returned D' modified' →
    ∀ fuel',
      migrateDocument (S fuel') steps D' T JUndefined = Returned D' JUndefined
      ∧ wasModified JUndefined = false.
Proof.
  intros fuel steps D T modified D' modified' H fuel'. split; [|done].
  apply at_rest_returns. by eapply returned_at_rest.
Qed.

(** C9 on the document scenario A ends with. *)
Lemma remigrate_is_noop_witness :
  let D' := {| doc_id := "a"; migration_version := Some 2%Z;
               fields := {["x" := VNum 1]} |} in
  migrateDocument 1 Examples.scenarioA D' 2 JUndefined = Returned D' JUndefined
  ∧ wasModified JUndefined = false.
Proof.
  exact (remigrate_is_noop 3 Examples.scenarioA
           (Examples.blank "a" (Some 0%Z)) 2 JUndefined _ _ scenarioA_run 0).
Defined.

(** C7, as the code has it.  A step whose transform yields null keeps the
    working document (the object it was handed, as the transform left it),
    stamps it with the step's id and lets the chain go on with the flag as
    it was; when the stamped document is at rest, that document and that flag
    are what the callback gets.  The flag handed back by a chain is set
    exactly when it was set at the start or some applied transform yielded a
    value other than null, whether that value replaces the document or not;
    so a flag that is set stays set. *)
Theorem null_yield_stamps_and_flag_is_sticky :
  ∀ fuel steps (doc : document) (up_to : Z) modified,
    (∀ m f,
       (version_of doc < up_to)%Z →
       steps_at steps (version_of doc) = Some m → up m = Some f →
       f doc = JNull →
       migrateDocument (S fuel) steps doc up_to modified
       = migrateDocument fuel steps (set_version (in_place f doc) (id m))
           up_to (js_or modified (JBool false))
       ∧ (at_rest steps (set_version (in_place f doc) (id m)) up_to →
          migrateDocument (S (S fuel)) steps doc up_to modified
          = Returned (set_version (in_place f doc) (id m))
              (js_or modified (JBool false)))
       ∧ wasModified (js_or modified (JBool false)) = wasModified modified)
    ∧ (∀ doc' modified',
         migrateDocument fuel steps doc up_to modified = Returned doc' modified' →
         (wasModified modified' = true ↔
            wasModified modified = true
            ∨ ∃ y, y ∈ yields fuel steps doc up_to ∧ y ≠ JNull)
         ∧ (wasModified modified = true → wasModified modified' = true)).
Proof.
  intros fuel steps doc up_to modified. split.
  - intros m f Hlt Hm Hup Hf.
    assert (∀ n, migrateDocument (S n) steps doc up_to modified
                 = migrateDocument n steps (set_version (in_place f doc) (id m))
                     up_to (js_or modified (JBool false))) as Hstep.
    { intros n. rewrite (migrate_falsy_yield n steps doc up_to modified m f);
        rewrite ?Hf; done. }
    split; [apply Hstep|]. split.
    + intros Hrest. rewrite Hstep. by apply at_rest_returns.
    + unfold wasModified. by rewrite truthy_or_bool, orb_false_r.
  - intros doc' modified' H. apply returned_flag in H. unfold wasModified.
    rewrite H. split.
    + rewrite orb_true_iff, existsb_exists.
      split; (intros [?|(y & Hy & Hn)]; [by left|right; exists y]).
      * split; [by apply list_elem_of_In|]. intros ->. done.
      * split; [by apply list_elem_of_In|].
        destruct y as [[]|]; done.
    + intros ->. done.
Qed.

(** C7 on scenario A: its second step yields null after the first one set
    the flag; the document is stamped 2 and handed back, the flag still set. *)
Lemma null_yield_stamps_and_flag_is_sticky_witness :
  (migrateDocument 2 Examples.scenarioA (Examples.blank "a" (Some 1%Z)) 2
     (JBool true)
   = Returned (Examples.blank "a" (Some 2%Z)) (JBool true))
  ∧ (wasModified (JBool true) = true ↔
       wasModified JUndefined = true
       ∨ ∃ y, y ∈ yields 3 Examples.scenarioA (Examples.blank "a" (Some 0%Z)) 2
              ∧ y ≠ JNull).
Proof.
  split.
  - pose proof (null_yield_stamps_and_flag_is_sticky 0 Examples.scenarioA
                  (Examples.blank "a" (Some 1%Z)) 2 (JBool true)) as [H _].
    destruct (H {| id := 2; up := Some Examples.yield_null |}
                Examples.yield_null) as (_ & E & _); [done..|].
    apply E. left. vm_compute. discriminate.
  - pose proof (null_yield_stamps_and_flag_is_sticky 3 Examples.scenarioA
                  (Examples.blank "a" (Some 0%Z)) 2 JUndefined) as [_ H].
    destruct (H _ _ scenarioA_run) as [E _]. exact E.
Defined.

(** C7 as stated fails.  The only step calls its continuation with no
    argument: no value it yields is an object, nothing replaces the document,
    and yet the flag handed back is set. *)
Lemma flag_set_without_replacement :
  migrateDocument 2 (Worlds.load_undefined []) (Examples.blank "a" None) 1
    JUndefined
  = Returned (Examples.blank "a" (Some 1%Z)) (JBool true)
  ∧ wasModified (JBool true) = true
  ∧ existsb is_object
      (yields 2 (Worlds.load_undefined []) (Examples.blank "a" None) 1)
    = false.
Proof. vm_compute. by repeat split. Qed.

(** * The comparator-less sort *)

Section ArraySortFacts.

Context {A : Type} (toString : A → string).

Local Abbreviation before := (sorts_before toString).

Lemma sort_insert_perm x l : sort_insert toString x l ≡ₚ x :: l.
Proof.
  induction l as [|y l IH]; simpl; [done|].
  destruct (String.leb (toString x) (toString y)); [done|].
  rewrite IH. apply Permutation_swap.
Qed.

Lemma Array_sort_perm l : Array_sort toString l ≡ₚ l.
Proof.
  induction l as [|x l IH]; simpl; [done|].
  by rewrite sort_insert_perm, IH.
Qed.

Lemma sort_insert_sorted x l :
  Sorted before l → Sorted before (sort_insert toString x l).
Proof.
  induction l as [|y l IH]; intros Hs; simpl.
  - by repeat constructor.
  - destruct (String.leb (toString x) (toString y)) eqn:E.
    + constructor; [done|]. by constructor.
    + apply Sorted_inv in Hs as [Hs Hhd].
      assert (before y x) as Hyx.
      { unfold sorts_before.
        destruct (String.leb_total (toString x) (toString y)); [congruence|done]. }
      constructor; [by apply IH|].
      destruct l as [|z l]; simpl; [by constructor|].
      destruct (String.leb (toString x) (toString z)); constructor; [done|].
      by apply HdRel_inv in Hhd.
Qed.

Lemma Array_sort_sorted l : Sorted before (Array_sort toString l).
Proof.
  induction l as [|x l IH]; simpl; [constructor|]. by apply sort_insert_sorted.
Qed.

End ArraySortFacts.

(** * The store *)

Section StoreFacts.

Implicit Types (store : gmap string document) (endkey : Z).

Lemma candidates_lookup endkey store k d :
  candidates endkey store !! k = Some d
  ↔ store !! k = Some d ∧ (version_of d ≤ endkey)%Z.
Proof. unfold candidates. by rewrite map_lookup_filter_Some. Qed.

Lemma rows_of_elem endkey limit store r :
  store_ok store → r ∈ rows_of endkey limit store →
  store !! doc_id r = Some r ∧ (version_of r ≤ endkey)%Z.
Proof.
  intros Hok Hr.
  assert (r ∈ (map_to_list (candidates endkey store)).*2) as Hin.
  { unfold rows_of in Hr. destruct limit as [n|]; [|done].
    by eapply subseteq_take. }
  apply list_elem_of_fmap in Hin as ([k d] & -> & Hkd).
  apply elem_of_map_to_list, candidates_lookup in Hkd as [Hl Hv].
  simpl. by rewrite (Hok _ _ Hl).
Qed.

Lemma rows_of_ids endkey store :
  store_ok store →
  doc_id <$> (map_to_list (candidates endkey store)).*2
  = (map_to_list (candidates endkey store)).*1.
Proof.
  intros Hok.
  assert (∀ kd, kd ∈ map_to_list (candidates endkey store) →
                doc_id kd.2 = kd.1) as Hall.
  { intros [k d] Hkd.
    apply elem_of_map_to_list, candidates_lookup in Hkd as [Hl _].
    simpl. by apply Hok. }
  induction (map_to_list (candidates endkey store)) as [|kd l IH]; [done|].
  simpl. f_equal.
  - apply Hall. by left.
  - apply IH. intros kd' H. apply Hall. by right.
Qed.

Lemma rows_of_NoDup endkey limit store :
  store_ok store → NoDup (doc_id <$> rows_of endkey limit store).
Proof.
  intros Hok. unfold rows_of.
  pose proof (NoDup_fst_map_to_list (candidates endkey store)) as Hnd.
  rewrite <- (rows_of_ids _ _ Hok) in Hnd.
  destruct limit as [n|]; [|done].
  rewrite fmap_take. eapply sublist_NoDup; [done|apply sublist_take].
Qed.

Lemma rows_of_all_length endkey store :
  length (rows_of endkey None store) = size (candidates endkey store).
Proof. unfold rows_of. by rewrite length_fmap, length_map_to_list. Qed.

(** Storing a document that is no candidate under the key of a candidate
    leaves one candidate less. *)
Lemma candidates_insert_out endkey store r d' :
  store !! doc_id r = Some r → (version_of r ≤ endkey)%Z →
  doc_id d' = doc_id r → ¬ (version_of d' ≤ endkey)%Z →
  S (size (candidates endkey (<[doc_id d' := d']> store)))
  = size (candidates endkey store).
Proof.
  intros Hl Hv Hid Hout. unfold candidates.
  rewrite map_filter_insert_False by done.
  rewrite map_filter_delete, Hid.
  rewrite map_size_delete_Some; last first.
  { exists r. by apply candidates_lookup. }
  assert (size (filter (λ kd, (version_of kd.2 ≤ endkey)%Z) store) ≠ 0).
  { intros H0. apply map_size_empty_iff in H0.
    assert (candidates endkey store !! doc_id r = Some r) as Hc
      by by apply candidates_lookup.
    unfold candidates in Hc. rewrite H0 in Hc. by rewrite lookup_empty in Hc. }
  lia.
Qed.

Lemma store_ok_insert store d :
  store_ok store → store_ok (<[doc_id d := d]> store).
Proof.
  intros Hok k x. rewrite lookup_insert_Some.
  intros [[<- <-]|[_ H]]; [done|by apply Hok].
Qed.

Lemma view_inserts d endkey limit :
  insert_errors (view d endkey limit).1 = insert_errors d.
Proof. unfold view. by destruct (view_errors d) as [|[err|] rest]. Qed.

(** An insert that does not fail. *)
Lemma insert_doc_ok d x :
  no_insert_faults d →
  insert_doc d x
  = {| docs := <[doc_id x := x]> (docs d); view_errors := view_errors d;
       insert_errors := tail (insert_errors d) |}
  ∧ no_insert_faults (insert_doc d x).
Proof.
  unfold no_insert_faults, insert_doc. intros H.
  destruct (insert_errors d) as [|[e|] rest]; simpl.
  - done.
  - by apply Forall_cons in H as [? _].
  - by apply Forall_cons in H as [_ ?].
Qed.

(** An insert, whether it fails or not. *)
Lemma insert_doc_cases d x :
  view_errors (insert_doc d x) = view_errors d
  ∧ (docs (insert_doc d x) = <[doc_id x := x]> (docs d)
     ∨ docs (insert_doc d x) = docs d).
Proof.
  unfold insert_doc. destruct (insert_errors d) as [|[e|] rest]; simpl; auto.
Qed.

End StoreFacts.

(** * The batch run *)

Section RunFacts.

Variable patience : nat.

Lemma view_docs d endkey limit : docs (view d endkey limit).1 = docs d.
Proof. unfold view. by destruct (view_errors d) as [|[err|] rest]. Qed.

Lemma view_rows d endkey limit rows :
  (view d endkey limit).2 = inr rows → rows = rows_of endkey limit (docs d).
Proof.
  unfold view. destruct (view_errors d) as [|[err|] rest]; simpl; congruence.
Qed.

(** A run left alone is one of the runs with ticks. *)
Lemma run_reachable fuel c : rtc (step_to patience) c (run patience fuel c).
Proof.
  revert c. induction fuel as [|fuel IH]; intros c; simpl; [done|].
  destruct (next patience c) as [c'|] eqn:E; [|done].
  eapply rtc_l; [by apply step_callback|apply IH].
Qed.

(** A failed page query ends the batch, and its error goes nowhere. *)
Lemma page_error_is_dropped w up_to limit err rest :
  view_errors (db w) = Some err :: rest →
  (treatDocuments w up_to limit).2 = Called None.
Proof. intros H. unfold treatDocuments, view. by rewrite H. Qed.

(** No callback of a run touches the registry or runs the loader. *)
Lemma next_registry c c' :
  next patience c = Some c' →
  migrations c'.1 = migrations c.1 ∧ loads c'.1 = loads c.1.
Proof.
  destruct c as [w k]. destruct k as [t|t lim|t lim rows| | |]; simpl; try done.
  - intros [= <-]. unfold on_count.
    destruct (view (db w) (t - 1) None) as [d' [err|rows]]; [done|].
    by destruct (setInterval (clock w)).
  - intros [= <-]. unfold treatDocuments.
    destruct (view (db w) (t - 1) (Some lim)) as [d' [err|[|r rows]]]; done.
  - destruct rows as [|r rows]; [by intros [= <-]|].
    unfold treat_row.
    by destruct (migrateDocument patience (steps (migrations w)) r t _);
      intros [= <-].
Qed.

Lemma run_registry fuel c :
  migrations (run patience fuel c).1 = migrations c.1
  ∧ loads (run patience fuel c).1 = loads c.1.
Proof.
  revert c. induction fuel as [|fuel IH]; intros c; simpl; [done|].
  destruct (next patience c) as [c'|] eqn:E; [|done].
  destruct (IH c') as [-> ->]. by apply next_registry.
Qed.

(** [written] never overtakes [done]. *)
Lemma written_le_done_step c c' :
  step_to patience c c' →
  written (progress c.1) ≤ done (progress c.1) →
  written (progress c'.1) ≤ done (progress c'.1).
Proof.
  intros [[w k] c2 Hnext|w k Htick]; [|done]. simpl.
  destruct k as [t|t lim|t lim rows| | |]; simpl in Hnext; try done.
  - injection Hnext as <-. unfold on_count.
    destruct (view (db w) (t - 1) None) as [d' [err|rows]]; [done|].
    by destruct (setInterval (clock w)).
  - injection Hnext as <-. unfold treatDocuments.
    destruct (view (db w) (t - 1) (Some lim)) as [d' [err|[|r rows]]]; done.
  - destruct rows as [|r rows]; [by injection Hnext as <-|].
    unfold treat_row in Hnext.
    destruct (migrateDocument patience (steps (migrations w)) r t _)
      as [d' m| |]; injection Hnext as <-; simpl; [|done..].
    intros H. destruct (truthy m); lia.
Qed.

Lemma written_le_done_run c c' :
  rtc (step_to patience) c c' →
  written (progress c.1) ≤ done (progress c.1) →
  written (progress c'.1) ≤ done (progress c'.1).
Proof.
  induction 1 as [|c1 c2 c3 Hstep _ IH]; [done|].
  intros H. apply IH. by eapply written_le_done_step.
Qed.

(** Once the callback is called, or the run is dead, the counters stay. *)
Lemma over_run c c' :
  next patience c = None → rtc (step_to patience) c c' →
  progress c'.1 = progress c.1 ∧ c'.2 = c.2.
Proof.
  intros Hover Hrun. induction Hrun as [|c1 c2 c3 Hstep _ IH]; [done|].
  destruct Hstep as [c1 c2 Hnext|w k Htick]; [congruence|].
  assert (next patience (tick w, k) = None) as Hover'.
  { destruct k as [t|t lim|t lim [|r rows]| | |]; simpl in *; try done.
    by destruct (treat_row patience w t r). }
  by destruct (IH Hover') as [-> ->].
Qed.

Variables (steps0 : list step) (T : Z).

Lemma run_inv_next c c' :
  run_inv patience steps0 T c → next patience c = Some c' →
  run_inv patience steps0 T c'.
Proof.
  destruct c as [w k]. intros (Hins & Hsteps & Hok & Hadv & Hwd & Hk) Hnext.
  simpl in *.
  destruct k as [t|t lim|t lim rows| | |]; simpl in Hnext; try done.
  - (* the count query answers *)
    injection Hnext as <-. destruct Hk as [-> Hdone]. unfold on_count.
    pose proof (view_inserts (db w) (T - 1) None) as Hins'.
    unfold no_insert_faults in Hins. rewrite <- Hins' in Hins.
    pose proof (view_docs (db w) (T - 1) None) as Hdocs.
    pose proof (view_rows (db w) (T - 1) None) as Hrows.
    destruct (view (db w) (T - 1) None) as [d' [err|rows]];
      cbn [fst snd] in Hdocs, Hrows, Hins; unfold run_inv; simpl.
    + rewrite Hdocs. repeat split; try done. lia.
    + rewrite Hdocs. rewrite (Hrows rows eq_refl), rows_of_all_length.
      repeat split; try done. simpl. lia.
  - (* a page query answers *)
    injection Hnext as <-. destruct Hk as [-> Hle]. unfold treatDocuments.
    pose proof (view_inserts (db w) (T - 1) (Some lim)) as Hins'.
    unfold no_insert_faults in Hins. rewrite <- Hins' in Hins.
    pose proof (view_docs (db w) (T - 1) (Some lim)) as Hdocs.
    pose proof (view_rows (db w) (T - 1) (Some lim)) as Hrows.
    destruct (view (db w) (T - 1) (Some lim)) as [d' [err|rows]];
      cbn [fst snd] in Hdocs, Hrows, Hins; unfold run_inv; simpl.
    + rewrite Hdocs. repeat split; try done. lia.
    + specialize (Hrows rows eq_refl).
      assert (NoDup (doc_id <$> rows)) as Hnd
        by (rewrite Hrows; by apply rows_of_NoDup).
      assert (∀ r, r ∈ rows →
                   docs (db w) !! doc_id r = Some r
                   ∧ (version_of r ≤ T - 1)%Z) as Helem.
      { intros r Hr. eapply rows_of_elem; [done|]. by rewrite <- Hrows. }
      destruct rows as [|r rows]; simpl; rewrite Hdocs.
      * repeat split; try done. lia.
      * do 7 (split; [done|]). by split.
  - destruct rows as [|r rows].
    + (* the page is drained *)
      injection Hnext as <-. destruct Hk as (-> & Hle & _).
      unfold run_inv; simpl. by repeat split.
    + (* one more row *)
      destruct Hk as (-> & Hle & Hnd & Hrows).
      destruct (Hrows r) as [Hr Hv]; [by left|].
      destruct (Hadv r Hr) as (d' & m & Hmig & Hid & Hup); [lia|].
      unfold treat_row in Hnext. rewrite Hsteps, Hmig in Hnext.
      destruct (insert_doc_ok (db w) d' Hins) as [Hstore Hins'].
      rewrite Hstore in Hnext, Hins'.
      injection Hnext as <-. unfold run_inv; simpl.
      pose proof (candidates_insert_out (T - 1) (docs (db w)) r d' Hr Hv Hid)
        as Hsize.
      split; [done|].
      split; [done|]. split; [by apply store_ok_insert|].
      split.
      { intros d. rewrite lookup_insert_Some.
        intros [[_ <-]|[_ Hd]] Hlt; [lia|by apply Hadv]. }
      split; [destruct (truthy m); lia|].
      split; [done|]. split; [specialize (Hsize ltac:(lia)); lia|].
      apply NoDup_cons in Hnd as [Hnotin Hnd].
      split; [done|]. intros r' Hr'.
      rewrite lookup_insert_ne; [apply Hrows; by right|].
      rewrite Hid. intros Heq. apply Hnotin. rewrite Heq.
      apply list_elem_of_fmap. by exists r'.
Qed.

Lemma run_inv_step c c' :
  run_inv patience steps0 T c → step_to patience c c' →
  run_inv patience steps0 T c'.
Proof.
  intros Hinv Hstep.
  destruct Hstep as [c1 c2 Hnext|w k Htick]; [by eapply run_inv_next|exact Hinv].
Qed.

Lemma run_inv_reachable c c' :
  run_inv patience steps0 T c → rtc (step_to patience) c c' →
  run_inv patience steps0 T c'.
Proof.
  intros Hinv Hrun. induction Hrun as [|c1 c2 c3 Hstep _ IH]; [done|].
  apply IH. by eapply run_inv_step.
Qed.

Lemma run_inv_total c :
  run_inv patience steps0 T c → done (progress c.1) ≤ total (progress c.1).
Proof.
  destruct c as [w k]. intros (_ & _ & _ & _ & _ & Hk). simpl in *.
  destruct k as [t|t lim|t lim rows| | |]; simpl in Hk; try done.
  - destruct Hk as [_ ->]. lia.
  - destruct Hk as [_ ?]. lia.
  - destruct Hk as (_ & ? & _). lia.
Qed.

End RunFacts.

(** * The properties of the batch run and of the entry points *)



(** C2 (the code departs from the claim).  A fresh instance whose files
    register the steps of scenario A runs over a store whose count query
    succeeds and whose first page query fails with [boom].  The counters are
    still zero and the timer is cancelled, but the caller's callback is
    called with no error: the function that [executeMigrations] hands to
    [treatDocuments] has no parameter for it. *)
Theorem first_page_error_is_dropped :
  let c := call Worlds.loadA 5 10 (fresh Worlds.failing_page) None in
  c.2 = Called None
  ∧ done (progress c.1) = 0 ∧ written (progress c.1) = 0
  ∧ intervalId (progress c.1) = Some 0 ∧ active (clock c.1) = ∅
  ∧ timer_cancelled c.1
  ∧ log c.1 = [LogSummary 0 0; LogStart 2].
Proof.
  intros c.
  assert (active (clock c.1) = ∅) as Hactive by (vm_compute; reflexivity).
  do 5 (split; [vm_compute; reflexivity|]).
  split; [|vm_compute; reflexivity].
  intros i _. rewrite Hactive. set_solver.
Qed.

Section EntryPoints.

Variable loader : list step → list step.

(** The sort of line 219 compares the steps as strings, and every step
    reads [[object Object]]: it leaves the array as the loader filled it. *)
Lemma Array_sort_steps (l : list step) : Array_sort step_toString l = l.
Proof. induction l as [|s l IH]; simpl; [done|]. rewrite IH. by destruct l. Qed.

Lemma loadFiles_registry w :
  steps (migrations (loadFiles loader w).1) = loader (steps (migrations w))
  ∧ loaded (migrations (loadFiles loader w).1) = loaded (migrations w)
  ∧ loads (loadFiles loader w).1 = S (loads w).
Proof.
  unfold loadFiles.
  destruct (steps_at _ _); simpl; by rewrite Array_sort_steps.
Qed.

Lemma executeMigrations_registry w up_to :
  migrations (executeMigrations w up_to).1 = migrations w
  ∧ loads (executeMigrations w up_to).1 = loads w
  ∧ progress (executeMigrations w up_to).1 = progress w
  ∧ db (executeMigrations w up_to).1 = db w.
Proof. unfold executeMigrations. by destruct (last (migrations w)). Qed.

Lemma doMigrations_loads w up_to :
  loaded (migrations w) = false →
  loads (doMigrations loader w up_to).1 = S (loads w)
  ∧ loaded (migrations (doMigrations loader w up_to).1) = false.
Proof.
  intros Hl. unfold doMigrations. rewrite Hl. simpl.
  destruct (loadFiles_registry w) as (_ & Hloaded & Hloads).
  destruct (loadFiles loader w) as [w' [e|]]; simpl in *.
  - by rewrite Hloaded, Hloads.
  - destruct (executeMigrations_registry w' (num_or_null up_to))
      as (-> & -> & _). by rewrite Hloaded, Hloads.
Qed.

End EntryPoints.

(** C3 (the code departs from the claim).  Nothing ever sets
    [migrations.loaded]: on an instance that starts with the flag unset, the
    loader runs once per call of the entry point, and the flag is still unset
    after any number of calls. *)
Theorem loader_runs_on_every_call :
  ∀ loader patience fuel w (calls : list (option Z)),
    loaded (migrations w) = false →
    loads (session loader patience fuel w calls) = loads w + length calls
    ∧ loaded (migrations (session loader patience fuel w calls)) = false.
Proof.
  intros loader patience fuel w calls. revert w.
  induction calls as [|up_to calls IH]; intros w Hl; simpl.
  - split; [lia|done].
  - destruct (doMigrations_loads loader w up_to Hl) as [Hloads Hloaded].
    destruct (run_registry patience fuel (doMigrations loader w up_to))
      as [Hm Hn].
    unfold call. destruct (IH (run patience fuel (doMigrations loader w up_to)).1)
      as [-> ->]; [by rewrite Hm|].
    split; [|done]. rewrite Hn, Hloads. lia.
Qed.

(** C3 on two calls in a row: the loader has run twice. *)
Lemma loader_runs_on_every_call_witness :
  loads (session Worlds.loadA 5 10 (fresh Worlds.one_doc) [None; None]) = 2
  ∧ loaded (migrations
              (session Worlds.loadA 5 10 (fresh Worlds.one_doc) [None; None]))
    = false.
Proof.
  exact (loader_runs_on_every_call Worlds.loadA 5 10 (fresh Worlds.one_doc)
           [None; None] eq_refl).
Defined.

(** C4 (the code departs from the claim).  The files register step 2 before
    step 1: after [loadFiles] the array still holds the ids 2, 1 in that
    order, and [last] is 1, the id of its last element, not the highest id. *)
Theorem load_keeps_registration_order :
  let m := migrations (loadFiles Worlds.load21 (fresh Worlds.one_doc)).1 in
  id <$> steps m = [2%Z; 1%Z] ∧ last m = Some 1%Z.
Proof. vm_compute. done. Qed.

(** C5, as the code has it.  When the registry the call executes with has
    its [last] set, the run works towards the target argument if that is a
    number other than 0, and towards [last] if the argument is omitted, null
    or 0; the target is what the start line of the log shows. *)
Theorem effective_target_resolution :
  ∀ loader w (up_to : option Z) w' (l : Z),
    after_load loader w = Some w' → last (migrations w') = Some l →
    ∃ T, doMigrations loader w up_to
         = (logger_info w' (LogStart T), AwaitCount T)
         ∧ (∀ n, up_to = Some n → n ≠ 0%Z → T = n)
         ∧ (up_to = None ∨ up_to = Some 0%Z → T = l).
Proof.
  intros loader w up_to w' l Hload Hlast.
  exists (num_or (num_or_null up_to) l). split; [|split].
  - unfold doMigrations, after_load in *.
    destruct (negb (loaded (migrations w))).
    + destruct (loadFiles loader w) as [w1 [e|]]; [done|].
      injection Hload as ->. unfold executeMigrations. by rewrite Hlast.
    + injection Hload as ->. unfold executeMigrations. by rewrite Hlast.
  - intros n -> Hn. simpl.
    destruct (n =? 0)%Z eqn:E; [apply Z.eqb_eq in E; done|]. simpl. by rewrite E.
  - intros [->| ->]; done.
Qed.

(** C5 on the explicit target 3, the highest step id being 7. *)
Lemma effective_target_resolution_witness :
  ∃ T, doMigrations Worlds.load7 (fresh Worlds.one_doc) (Some 3%Z)
       = ((logger_info (loadFiles Worlds.load7 (fresh Worlds.one_doc)).1
             (LogStart T)), AwaitCount T)
       ∧ (∀ n, Some 3%Z = Some n → n ≠ 0%Z → T = n)
       ∧ (Some 3%Z = None ∨ Some 3%Z = Some 0%Z → T = 7%Z).
Proof.
  apply (effective_target_resolution Worlds.load7 (fresh Worlds.one_doc)
           (Some 3%Z)
           (loadFiles Worlds.load7 (fresh Worlds.one_doc)).1 7).
  - reflexivity.
  - reflexivity.
Defined.

(** C5 as stated fails for the explicit target 0: with the highest step id
    at 7, the run works towards 7. *)
Lemma explicit_target_zero_resolves_to_last :
  target_of (doMigrations Worlds.load7 (fresh Worlds.one_doc) (Some 0%Z)).2
  = Some 7%Z
  ∧ target_of (doMigrations Worlds.load7 (fresh Worlds.one_doc) (Some 0%Z)).2
    ≠ Some 0%Z.
Proof. split; [reflexivity|discriminate]. Qed.

(** C6, as the code has it.  [written] never exceeds [done] at any point of
    a run that starts with [written ≤ done].  When moreover the run starts
    with [done] at zero, over a store that keeps every document under its
    [_id] and fails none of its inserts, and the chain of every document
    below the target hands back a document with the same [_id] at or above
    the target, [done] never exceeds [total] either. *)
Theorem counters_ordered_during_run :
  ∀ patience w (up_to : option Z) c,
    written (progress w) ≤ done (progress w) →
    rtc (step_to patience) (executeMigrations w up_to) c →
    written (progress c.1) ≤ done (progress c.1)
    ∧ (done (progress w) = 0 →
       store_ok (docs (db w)) →
       no_insert_faults (db w) →
       (∀ T d, target_of (executeMigrations w up_to).2 = Some T →
               docs (db w) !! doc_id d = Some d → (version_of d < T)%Z →
               advances patience (steps (migrations w)) T d) →
       done (progress c.1) ≤ total (progress c.1)).
Proof.
  intros patience w up_to c Hwd Hrun.
  destruct (executeMigrations_registry w up_to) as (Hm & _ & Hp & Hdb).
  split.
  - apply (written_le_done_run patience _ _ Hrun). by rewrite Hp.
  - intros Hdone Hok Hins Hadv. revert Hrun Hadv Hm Hp Hdb.
    unfold executeMigrations.
    destruct (last (migrations w)) as [l|]; simpl; intros Hrun Hadv Hm Hp Hdb.
    + apply (run_inv_total patience (steps (migrations w)) (num_or up_to l)).
      eapply run_inv_reachable; [|exact Hrun].
      unfold run_inv; simpl. repeat split; try done.
      intros d Hd Hlt. by apply Hadv.
    + destruct (over_run patience (w, Called (Some "No migrations found")) c
                  eq_refl Hrun) as [-> _]. simpl. lia.
Qed.

(** C6 on scenario A over a store of one document, after four callbacks. *)
Lemma counters_ordered_during_run_witness :
  let w := (loadFiles Worlds.loadA (fresh Worlds.one_doc)).1 in
  let c := run 5 4 (executeMigrations w None) in
  written (progress c.1) ≤ done (progress c.1)
  ∧ done (progress c.1) ≤ total (progress c.1).
Proof.
  intros w c.
  destruct (counters_ordered_during_run 5 w None c) as [H1 H2].
  - vm_compute. lia.
  - apply run_reachable.
  - split; [exact H1|]. apply H2.
    + reflexivity.
    + intros k d. simpl. rewrite lookup_singleton_Some. by intros [<- <-].
    + by apply Forall_nil.
    + intros T d [= <-]. simpl. rewrite lookup_singleton_Some.
      intros [_ <-] _. eexists _, _. split; [vm_compute; reflexivity|].
      split; [reflexivity|]. vm_compute. discriminate.
Defined.

(** C6 as stated fails.  The only step has no [up] function, so the document
    [a] stays at version 0: it is fetched again by the second page, and while
    the timer is running [done] is 2 against a [total] of 1. *)
Lemma stuck_document_overruns_total :
  let w := (loadFiles Worlds.load_stamp (fresh Worlds.one_doc)).1 in
  ∃ c, rtc (step_to 5) (executeMigrations w None) c
       ∧ ticking c.1
       ∧ done (progress c.1) = 2 ∧ total (progress c.1) = 1
       ∧ ¬ counters_ok (progress c.1).
Proof.
  intros w. exists (run 5 6 (executeMigrations w None)).
  split; [apply run_reachable|].
  split.
  { exists 0. split; [reflexivity|].
    apply (bool_decide_unpack _). vm_compute. exact I. }
  split; [reflexivity|]. split; [reflexivity|].
  intros [_ H]. vm_compute in H. lia.
Qed.

(** * Outcomes of single callbacks *)

(** With no step registered, [loadFiles] throws: it reads [.id] of
    [steps[-1]]. *)
Lemma load_of_nothing_throws loader w :
  loader (steps (migrations w)) = [] →
  (loadFiles loader w).2 = Some TypeError.
Proof.
  intros H. unfold loadFiles. by rewrite Array_sort_steps, H.
Qed.

(** While [migrations.last] is null the run does not start. *)
Lemma no_migrations_found w (up_to : option Z) :
  last (migrations w) = None →
  executeMigrations w up_to = (w, Called (Some "No migrations found")).
Proof. intros H. unfold executeMigrations. by rewrite H. Qed.

(** A failure of the count query reaches the callback of
    [executeMigrations]; the query is not tried again. *)
Lemma count_error_reaches_callback w (up_to : Z) err rest :
  view_errors (db w) = Some err :: rest →
  (on_count w up_to).2 = Called (Some ("Unable to retrive data: " +:+ err))
  ∧ view_errors (db (on_count w up_to).1) = rest
  ∧ progress (on_count w up_to).1 = progress w
  ∧ clock (on_count w up_to).1 = clock w.
Proof. intros H. unfold on_count, view. by rewrite H. Qed.

(** A failure of a page query ends the run with the callback called without
    an error; the counters keep their values and the timer of the run is
    cancelled. *)
Lemma page_error_ends_run_silently w (up_to : Z) (limit : nat) err rest :
  view_errors (db w) = Some err :: rest →
  (treatDocuments w up_to limit).2 = Called None
  ∧ done (progress (treatDocuments w up_to limit).1) = done (progress w)
  ∧ written (progress (treatDocuments w up_to limit).1)
    = written (progress w)
  ∧ timer_cancelled (treatDocuments w up_to limit).1.
Proof.
  intros H. unfold treatDocuments, view. rewrite H.
  simpl. do 3 (split; [done|]).
  intros i Hi. simpl in *. rewrite Hi. simpl.
  apply not_elem_of_difference. right. by apply elem_of_singleton.
Qed.

(** * More on the per-document chain *)

Section ChainCover.

Implicit Types (steps : list step) (doc : document) (up_to : Z).
Implicit Types (modified : jsval) (fuel : nat).

(** One round of [migrateDocument], with the recursive call left folded. *)
Lemma migrate_unfold fuel steps doc up_to modified :
  migrateDocument (S fuel) steps doc up_to modified
  = let version := version_of doc in
    if (version <? up_to)%Z then
      match steps_at steps version with
      | None => Threw TypeError
      | Some m =>
        match up m with
        | Some f =>
          match js_or (f doc) (JObj (in_place f doc)) with
          | JObj d =>
            migrateDocument fuel steps (set_version d (id m)) up_to
              (js_or modified (JBool (not_null (f doc))))
          | JPrim _ => Threw TypeError
          end
        | None => Returned doc modified
        end
      end
    else Returned doc modified.
Proof. reflexivity. Qed.

Lemma version_of_set_version doc n : version_of (set_version doc n) = n.
Proof.
  unfold version_of, set_version. simpl.
  destruct (n =? 0)%Z eqn:E; [apply Z.eqb_eq in E; by subst|done].
Qed.

Lemma steps_at_nonneg steps i m : steps_at steps i = Some m → (0 ≤ i)%Z.
Proof.
  unfold steps_at. destruct (i <? 0)%Z eqn:E; [done|].
  intros _. by apply Z.ltb_ge in E.
Qed.




Lemma self_stamping_loops steps up_to m f :
  steps_at steps (id m) = Some m → up m = Some f →
  (∀ d, truthy (f d) = false) → (id m < up_to)%Z →
  ∀ fuel doc modified,
    version_of doc = id m →
    migrateDocument fuel steps doc up_to modified = Unfinished.
Proof.
  intros Hm Hup Hf Hlt.
  induction fuel as [|fuel IH]; intros doc modified Hv; [done|].
  simpl. rewrite Hv, Hm, Hup.
  apply Z.ltb_lt in Hlt. rewrite Hlt.
  rewrite (js_or_falsy _ _ (Hf doc)). apply IH.
  by rewrite version_of_set_version.
Qed.

Lemma quiet_chain_frame fuel steps up_to : ∀ doc modified doc' modified',
  Forall (λ fd, in_place fd.1 fd.2 = fd.2 ∧ truthy (fd.1 fd.2) = false)
    (applications fuel steps doc up_to) →
  migrateDocument fuel steps doc up_to modified = Returned doc' modified' →
  doc_id doc' = doc_id doc ∧ fields doc' = fields doc.
Proof.
  induction fuel as [|fuel IH]; intros doc modified doc' modified'; [done|].
  simpl. destruct (version_of doc <? up_to)%Z; [|by intros _ [= <- <-]].
  destruct (steps_at steps (version_of doc)) as [m|]; [|done].
  destruct (up m) as [f|]; [|by intros _ [= <- <-]].
  destruct (js_or (f doc) (JObj (in_place f doc))) as [|d] eqn:Hd; [done|].
  intros Hall Hrun. apply Forall_cons in Hall as [[Hsame Hf] Hall].
  simpl in Hsame, Hf.
  rewrite (js_or_falsy _ _ Hf), Hsame in Hd. injection Hd as <-.
  by destruct (IH _ _ _ _ Hall Hrun) as [-> ->].
Qed.

End ChainCover.

(** * More on the batch run *)

Section FilterFacts.

Context (P : string * document → Prop) `{!∀ x, Decision (P x)}.

(** Overwriting a document by one outside the filter takes the overwritten
    one out of the filtered map, if it was in. *)
Lemma filter_size_insert_out (store : gmap string document) k r d' :
  store !! k = Some r → ¬ P (k, d') →
  size (filter P (<[k := d']> store)) + (if decide (P (k, r)) then 1 else 0)
  = size (filter P store).
Proof.
  intros Hk Hout.
  rewrite map_filter_insert_False, map_filter_delete, map_size_delete by done.
  destruct (decide (P (k, r))) as [Hin|Hnin].
  - assert (filter P store !! k = Some r) as Hf
      by by apply map_lookup_filter_Some.
    rewrite Hf.
    assert (size (filter P store) ≠ 0).
    { intros H0. apply map_size_empty_iff in H0. rewrite H0 in Hf.
      by rewrite lookup_empty in Hf. }
    lia.
  - assert (filter P store !! k = None) as ->.
    { apply map_lookup_filter_None. right. intros x Hx.
      rewrite Hk in Hx. by injection Hx as <-. }
    simpl. lia.
Qed.

End FilterFacts.

Section RunMore.

Variable patience : nat.

Lemma run_add a b c :
  run patience (a + b) c = run patience b (run patience a c).
Proof.
  revert c. induction a as [|a IH]; intros c; simpl; [done|].
  destruct (next patience c) as [c'|] eqn:E; [apply IH|].
  destruct b; simpl; [done|by rewrite E].
Qed.

Lemma view_no_faults d endkey limit :
  no_faults d →
  (view d endkey limit).2 = inr (rows_of endkey limit (docs d))
  ∧ no_faults (view d endkey limit).1
  ∧ docs (view d endkey limit).1 = docs d.
Proof.
  unfold no_faults, view. intros H.
  destruct (view_errors d) as [|[err|] rest]; simpl.
  - done.
  - by apply Forall_cons in H as [? _].
  - by apply Forall_cons in H as [_ ?].
Qed.

Variables (steps0 : list step) (T : Z).

Local Abbreviation waiting w := (size (candidates (T - 1) (docs (db w)))).
Local Abbreviation waiting_flagged w :=
  (size (flagged_candidates patience steps0 T (docs (db w)))).
Local Abbreviation stored w := (migrated patience steps0 T <$> docs (db w)).

(** The effect of the iterator on a row that is in the store and below the
    target. *)
Lemma treat_row_ready w r :
  ready patience steps0 T w →
  docs (db w) !! doc_id r = Some r → (version_of r ≤ T - 1)%Z →
  ∃ w',
    treat_row patience w T r = inl w'
    ∧ ready patience steps0 T w'
    ∧ docs (db w') = <[doc_id r := migrated patience steps0 T r]> (docs (db w))
    ∧ view_errors (db w') = view_errors (db w)
    ∧ clock w' = clock w ∧ log w' = log w
    ∧ intervalId (progress w') = intervalId (progress w)
    ∧ total (progress w') = total (progress w)
    ∧ done (progress w') + waiting w' = done (progress w) + waiting w
    ∧ S (waiting w') = waiting w
    ∧ written (progress w') + waiting_flagged w'
      = written (progress w) + waiting_flagged w
    ∧ stored w' = stored w.
Proof.
  intros (Hins & Hsteps & Hok & Hadv) Hr Hv.
  destruct (Hadv r Hr) as (d' & m & Hmig & Hid & Hup); [lia|].
  destruct (insert_doc_ok (db w) d' Hins) as [Hstore Hins'].
  rewrite Hstore in Hins'.
  assert (migrated patience steps0 T r = d') as Hd'.
  { unfold migrated. rewrite Hmig. destruct (decide _); [done|lia]. }
  assert (migrated patience steps0 T d' = d') as Hfix.
  { unfold migrated. destruct (decide _); [lia|done]. }
  assert (flagged patience steps0 T r = truthy m) as Hflag
    by (unfold flagged; by rewrite Hmig).
  unfold treat_row. rewrite Hsteps, Hmig, Hstore. eexists. split; [done|].
  simpl. rewrite Hd', Hid.
  pose proof (filter_size_insert_out
                (λ kd, (version_of kd.2 ≤ T - 1)%Z) (docs (db w))
                (doc_id r) r d' Hr) as Hsize.
  pose proof (filter_size_insert_out
                (λ kd, (version_of kd.2 ≤ T - 1)%Z
                       ∧ flagged patience steps0 T kd.2 = true)
                (docs (db w)) (doc_id r) r d' Hr) as Hsizef.
  simpl in Hsize, Hsizef.
  rewrite decide_True in Hsize by done.
  specialize (Hsize ltac:(lia)). specialize (Hsizef ltac:(lia)).
  unfold candidates, flagged_candidates.
  split; [|split; [done|]].
  { unfold ready. simpl. split; [done|]. split; [done|]. split.
    - rewrite <- Hid. by apply store_ok_insert.
    - intros d. rewrite lookup_insert_Some.
      intros [[_ <-]|[_ Hd]] Hlt; [lia|by apply Hadv]. }
  do 5 (split; [done|]).
  split; [lia|]. split; [lia|]. split.
  - rewrite Hflag in Hsizef. destruct (truthy m).
    + rewrite decide_True in Hsizef by done. lia.
    + rewrite decide_False in Hsizef by (intros [_ ?]; done). lia.
  - rewrite fmap_insert, Hfix. apply insert_id.
    by rewrite lookup_fmap, Hr; simpl; rewrite Hd'.
Qed.

(** A page of rows, served to its end. *)
Lemma rows_drain lim : ∀ rows w,
  ready patience steps0 T w →
  NoDup (doc_id <$> rows) →
  (∀ r, r ∈ rows →
        docs (db w) !! doc_id r = Some r ∧ (version_of r ≤ T - 1)%Z) →
  ∃ w',
    run patience (length rows) (w, Iterating T lim rows)
    = (w', Iterating T lim [])
    ∧ ready patience steps0 T w'
    ∧ view_errors (db w') = view_errors (db w)
    ∧ clock w' = clock w ∧ log w' = log w
    ∧ intervalId (progress w') = intervalId (progress w)
    ∧ total (progress w') = total (progress w)
    ∧ done (progress w') + waiting w' = done (progress w) + waiting w
    ∧ waiting w' + length rows = waiting w
    ∧ written (progress w') + waiting_flagged w'
      = written (progress w) + waiting_flagged w
    ∧ stored w' = stored w.
Proof.
  induction rows as [|r rows IH]; intros w Hready Hnd Hrows.
  - exists w. simpl. do 2 (split; [done|]). repeat split; try done; lia.
  - destruct (Hrows r) as [Hr Hv]; [by left|].
    destruct (treat_row_ready w r Hready Hr Hv)
      as (w1 & Hrow & Hready1 & Hdocs & He & Hc & Hl & Hi & Ht & Hd & Hw & Hf
          & Hs).
    apply NoDup_cons in Hnd as [Hnotin Hnd].
    destruct (IH w1 Hready1 Hnd)
      as (w' & Hrun & Hready' & He' & Hc' & Hl' & Hi' & Ht' & Hd' & Hw' & Hf'
          & Hs').
    { intros r' Hr'. destruct (Hrows r') as [Hin Hv']; [by right|].
      split; [|done]. rewrite Hdocs, lookup_insert_ne; [done|].
      intros Heq. apply Hnotin. rewrite Heq.
      apply list_elem_of_fmap. by exists r'. }
    exists w'. simpl. rewrite Hrow.
    split; [done|]. split; [done|].
    rewrite He', Hc', Hl', Hi', Ht', Hd', Hf', Hs'.
    repeat split; try done. lia.
Qed.

(** Page after page, until a page comes back empty. *)
Lemma pages_complete lim : 0 < lim → ∀ n w,
  waiting w = n →
  ready patience steps0 T w → no_faults (db w) →
  ∃ fuel w',
    run patience fuel (w, AwaitPage T lim) = (w', Called None)
    ∧ done (progress w') = done (progress w) + n
    ∧ written (progress w') = written (progress w) + waiting_flagged w
    ∧ total (progress w') = total (progress w)
    ∧ intervalId (progress w') = intervalId (progress w)
    ∧ docs (db w') = stored w
    ∧ clock w' = clearInterval (clock w) (intervalId (progress w))
    ∧ log w'
      = LogSummary (done (progress w')) (written (progress w')) :: log w
    ∧ migrations w' = migrations w
    ∧ no_faults (db w').
Proof.
  intros Hlim n. induction n as [n IH] using lt_wf_ind.
  intros w Hn Hready Hnf.
  destruct (view_no_faults (db w) (T - 1) (Some lim) Hnf)
    as (Hres & Hnf' & Hdocs).
  destruct (view (db w) (T - 1) (Some lim)) as [d' res] eqn:Hview.
  cbn [fst snd] in Hres, Hnf', Hdocs. subst res.
  pose proof Hready as (Hins & Hsteps & Hok & Hadv).
  pose proof (view_inserts (db w) (T - 1) (Some lim)) as Hins'.
  rewrite Hview in Hins'. cbn [fst] in Hins'.
  destruct (rows_of (T - 1) (Some lim) (docs (db w))) as [|r rows] eqn:Hrows.
  - (* the page is empty: no document is below the target *)
    assert (candidates (T - 1) (docs (db w)) = ∅) as Hempty.
    { unfold rows_of in Hrows. apply take_nil_inv in Hrows as [?|Hnil]; [lia|].
      by apply fmap_nil_inv, map_to_list_empty_iff in Hnil. }
    exists 1. eexists. simpl. unfold treatDocuments. rewrite Hview.
    split; [done|]. simpl.
    assert (n = 0) as -> by (rewrite <- Hn, Hempty; apply map_size_empty).
    assert (flagged_candidates patience steps0 T (docs (db w)) = ∅) as ->.
    { apply map_empty. intros k. apply map_lookup_filter_None. right.
      intros d Hd [Hv _].
      assert (candidates (T - 1) (docs (db w)) !! k = Some d) as Hc
        by by apply candidates_lookup.
      rewrite Hempty in Hc. by rewrite lookup_empty in Hc. }
    rewrite map_size_empty.
    split; [lia|]. split; [lia|]. do 2 (split; [done|]).
    split; [|done]. rewrite Hdocs. symmetry.
    rewrite <- (map_fmap_id (docs (db w))) at 2.
    apply map_fmap_ext. intros k d Hd. unfold migrated.
    destruct (decide _) as [Hlt|]; [|done].
    assert (candidates (T - 1) (docs (db w)) !! k = Some d) as Hc
      by (apply candidates_lookup; split; [done|lia]).
    rewrite Hempty in Hc. by rewrite lookup_empty in Hc.
  - (* a page of rows: serve it, then ask again *)
    set (w1 := with_db w d').
    assert (ready patience steps0 T w1) as Hready1.
    { unfold ready, no_insert_faults, w1. simpl. by rewrite Hdocs, Hins'. }
    destruct (rows_drain lim (r :: rows) w1 Hready1)
      as (w2 & Hrun & Hready2 & He & Hc & Hl & Hi & Ht & Hd & Hw & Hf & Hs).
    { rewrite <- Hrows. by apply rows_of_NoDup. }
    { intros r' Hr'. unfold w1. simpl. rewrite Hdocs.
      eapply rows_of_elem; [done|]. by rewrite Hrows. }
    unfold w1 in Hd, Hw, Hf, Hs, Hc, Hl, Hi, Ht, He.
    simpl in Hd, Hw, Hf, Hs, Hc, Hl, Hi, Ht, He.
    rewrite Hdocs in Hd, Hw, Hf, Hs.
    destruct (IH (waiting w2)) with (w := w2)
      as (fuel & w' & Hrun' & Hd' & Hw' & Ht' & Hi' & Hdocs' & Hc' & Hl' & Hm'
          & Hnf2);
      [lia|done|done|..].
    { unfold no_faults. by rewrite He. }
    exists (1 + (length (r :: rows) + (1 + fuel))), w'.
    rewrite (run_add 1).
    replace (run patience 1 (w, AwaitPage T lim))
      with (w1, Iterating T lim (r :: rows))
      by (simpl; unfold treatDocuments; by rewrite Hview).
    rewrite run_add, Hrun.
    replace (run patience (1 + fuel) (w2, Iterating T lim []))
      with (run patience fuel (w2, AwaitPage T lim)) by done.
    split; [exact Hrun'|].
    pose proof (run_registry patience (length (r :: rows))
                  (w1, Iterating T lim (r :: rows))) as [Hreg _].
    rewrite Hrun in Hreg. simpl in Hreg.
    do 8 (split; [first [lia|congruence]|]). done.
Qed.

End RunMore.

(** * What holds all along a run *)

Section RunInvariants.

Variable patience : nat.

(** A rule kept by every callback and by the ticks is kept by the run. *)
Lemma run_keeps (I : config → Prop) :
  (∀ c c', I c → next patience c = Some c' → I c') →
  (∀ w k, I (w, k) → I (tick w, k)) →
  ∀ c c', I c → rtc (step_to patience) c c' → I c'.
Proof.
  intros Hnext Htick c c' Hc Hrun.
  induction Hrun as [|c1 c2 c3 Hstep _ IH]; [done|].
  apply IH. destruct Hstep as [c1 c2 Hn|w k _]; [by eapply Hnext|by apply Htick].
Qed.

(** The cases of a callback. *)
Lemma next_cases c c' :
  next patience c = Some c' →
  (∃ t, c.2 = AwaitCount t ∧ c' = on_count c.1 t)
  ∨ (∃ t lim, c.2 = AwaitPage t lim ∧ c' = treatDocuments c.1 t lim)
  ∨ (∃ t lim, c.2 = Iterating t lim [] ∧ c' = (c.1, AwaitPage t lim))
  ∨ (∃ t lim r rows w', c.2 = Iterating t lim (r :: rows)
       ∧ treat_row patience c.1 t r = inl w'
       ∧ c' = (w', Iterating t lim rows))
  ∨ (∃ t lim r rows, c.2 = Iterating t lim (r :: rows)
       ∧ (c'.2 = Crashed TypeError ∨ c'.2 = Stalled) ∧ c'.1 = c.1).
Proof.
  destruct c as [w k]. destruct k as [t|t lim|t lim [|r rows]| | |]; simpl;
    try done; intros H.
  - left. injection H as <-. eauto.
  - right. left. injection H as <-. eauto.
  - right. right. left. injection H as <-. eauto.
  - do 3 right. destruct (treat_row patience w t r) as [w'|k'] eqn:E;
      injection H as <-.
    + left. by exists t, lim, r, rows, w'.
    + right. exists t, lim, r, rows. split; [done|]. split; [|done].
      unfold treat_row in E.
      destruct (migrateDocument _ _ _ _ _) as [? ?|[]|]; simplify_eq; auto.
Qed.

Lemma treat_row_effect w t r w' :
  treat_row patience w t r = inl w' →
  ∃ d' m,
    migrateDocument patience (steps (migrations w)) r t JUndefined
    = Returned d' m
    ∧ (docs (db w') = <[doc_id d' := d']> (docs (db w))
       ∨ docs (db w') = docs (db w))
    ∧ view_errors (db w') = view_errors (db w)
    ∧ clock w' = clock w ∧ log w' = log w ∧ migrations w' = migrations w
    ∧ intervalId (progress w') = intervalId (progress w)
    ∧ total (progress w') = total (progress w)
    ∧ done (progress w') = done (progress w) + 1
    ∧ written (progress w')
      = written (progress w) + (if truthy m then 1 else 0).
Proof.
  unfold treat_row.
  destruct (migrateDocument _ _ _ _ _) as [d' m| |]; [|done..].
  intros [= <-]. exists d', m. simpl.
  destruct (insert_doc_cases (db w) d') as [He Hd].
  by repeat split.
Qed.

Lemma on_count_cases w t :
  (∃ e, (on_count w t).2 = Called (Some ("Unable to retrive data: " +:+ e))
        ∧ progress (on_count w t).1 = progress w
        ∧ clock (on_count w t).1 = clock w
        ∧ docs (db (on_count w t).1) = docs (db w))
  ∨ ((on_count w t).2 = AwaitPage t 512
     ∧ total (progress (on_count w t).1)
       = size (candidates (t - 1) (docs (db w)))
     ∧ done (progress (on_count w t).1) = done (progress w)
     ∧ written (progress (on_count w t).1) = written (progress w)
     ∧ intervalId (progress (on_count w t).1) = Some (next_timer (clock w))
     ∧ active (clock (on_count w t).1)
       = {[next_timer (clock w)]} ∪ active (clock w)
     ∧ docs (db (on_count w t).1) = docs (db w)).
Proof.
  unfold on_count, view.
  destruct (view_errors (db w)) as [|[e|] rest]; simpl.
  - right. by rewrite length_fmap, length_map_to_list.
  - left. eauto.
  - right. by rewrite length_fmap, length_map_to_list.
Qed.

Lemma treatDocuments_cases w t lim :
  ((treatDocuments w t lim).2 = Called None
   ∧ progress (treatDocuments w t lim).1 = progress w
   ∧ clock (treatDocuments w t lim).1
     = clearInterval (clock w) (intervalId (progress w)))
  ∨ (∃ rows, (treatDocuments w t lim).2 = Iterating t lim rows
     ∧ progress (treatDocuments w t lim).1 = progress w
     ∧ clock (treatDocuments w t lim).1 = clock w).
Proof.
  unfold treatDocuments, view.
  destruct (view_errors (db w)) as [|[e|] rest]; simpl;
    try destruct (take _ _); simpl; eauto.
Qed.

(** The counters only grow. *)
Lemma next_counters_grow c c' :
  next patience c = Some c' →
  done (progress c.1) ≤ done (progress c'.1)
  ∧ written (progress c.1) ≤ written (progress c'.1).
Proof.
  intros H. apply next_cases in H
    as [(t & _ & ->)|[(t & lim & _ & ->)|[(t & lim & _ & ->)|
        [(t & lim & r & rows & w' & _ & Hrow & ->)|
         (t & lim & r & rows & _ & _ & ->)]]]]; simpl; try done.
  - destruct (on_count_cases c.1 t) as [(e & _ & -> & _)|(_ & _ & -> & -> & _)];
      done.
  - destruct (treatDocuments_cases c.1 t lim)
      as [(_ & -> & _)|(rows & _ & -> & _)]; done.
  - apply treat_row_effect in Hrow as (d' & m & _ & _ & _ & _ & _ & _ & _ & _
                                        & -> & ->). lia.
Qed.

Lemma error_inv_next w0 c c' :
  error_inv w0 c → next patience c = Some c' → error_inv w0 c'.
Proof.
  unfold error_inv. intros Hc H. apply next_cases in H
    as [(t & Hk & ->)|[(t & lim & Hk & ->)|[(t & lim & Hk & ->)|
        [(t & lim & r & rows & w' & Hk & Hrow & ->)|
         (t & lim & r & rows & Hk & [Hk'|Hk'] & _)]]]]; rewrite ?Hk'; simpl;
    try done.
  - rewrite Hk in Hc. destruct Hc as (Hp & Hd & Hcl).
    destruct (on_count_cases c.1 t) as [(e & -> & Hp' & Hcl' & Hd')|(-> & _)];
      [|done].
    split; [|right; eauto]. unfold untouched. by rewrite Hp', Hcl', Hd'.
  - by destruct (treatDocuments_cases c.1 t lim)
      as [(-> & _)|(rows & -> & _)].
Qed.

Lemma timer_inv_next A0 c c' :
  timer_inv A0 c → next patience c = Some c' → timer_inv A0 c'.
Proof.
  unfold timer_inv. intros Hc H. apply next_cases in H
    as [(t & Hk & ->)|[(t & lim & Hk & ->)|[(t & lim & Hk & ->)|
        [(t & lim & r & rows & w' & Hk & Hrow & ->)|
         (t & lim & r & rows & Hk & Hk' & Hw)]]]]; rewrite Hk in Hc; simpl.
  - destruct Hc as [Ha Hfresh].
    destruct (on_count_cases c.1 t)
      as [(e & -> & _ & -> & _)|(-> & _ & _ & _ & Hi & Hact & _)]; [done|].
    exists (next_timer (clock c.1)). by rewrite Hact, Ha.
  - destruct Hc as (i & Hi & Hfresh & Hact).
    destruct (treatDocuments_cases c.1 t lim)
      as [(-> & Hp & Hcl)|(rows & -> & Hp & Hcl)].
    + rewrite Hcl, Hi. simpl. rewrite Hact.
      rewrite difference_union_distr_l_L, difference_diag_L, union_empty_l_L.
      by apply difference_disjoint_L, disjoint_singleton_r.
    + exists i. by rewrite Hp, Hcl.
  - done.
  - destruct Hc as (i & Hi & Hfresh & Hact).
    apply treat_row_effect in Hrow
      as (d' & m & _ & _ & _ & Hcl & _ & _ & Hi' & _).
    exists i. by rewrite Hi', Hcl, Hi.
  - rewrite Hw. by destruct Hk' as [-> | ->].
Qed.

Lemma total_inv_next n store0 T c c' :
  n = size (candidates (T - 1) store0) →
  total_inv n store0 T c → next patience c = Some c' → total_inv n store0 T c'.
Proof.
  unfold total_inv. intros Hn Hc H. apply next_cases in H
    as [(t & Hk & ->)|[(t & lim & Hk & ->)|[(t & lim & Hk & ->)|
        [(t & lim & r & rows & w' & Hk & Hrow & ->)|
         (t & lim & r & rows & Hk & Hk' & Hw)]]]]; rewrite Hk in Hc; simpl.
  - destruct Hc as [-> Hd].
    destruct (on_count_cases c.1 T) as [(e & -> & _)|(-> & -> & _)]; [done|].
    by rewrite Hd.
  - destruct (treatDocuments_cases c.1 t lim)
      as [(-> & -> & _)|(rows & -> & -> & _)]; done.
  - done.
  - apply treat_row_effect in Hrow
      as (d' & m & _ & _ & _ & _ & _ & _ & _ & -> & _). done.
  - rewrite Hw. by destruct Hk' as [-> | ->].
Qed.

End RunInvariants.

(** * More on loading *)

Section LoadMore.

Variable loader : list step → list step.

Lemma steps_at_last (l : list step) s :
  steps_at (l ++ [s]) (Z.of_nat (length (l ++ [s])) - 1) = Some s.
Proof.
  unfold steps_at. rewrite length_app. simpl.
  destruct (_ <? 0)%Z eqn:E; [apply Z.ltb_lt in E; lia|].
  replace (Z.to_nat (Z.of_nat (length l + 1) - 1)) with (length l + 0) by lia.
  by rewrite lookup_app_r, Nat.add_0_r, Nat.sub_diag by lia.
Qed.

Lemma loadFiles_last w l s :
  loader (steps (migrations w)) = l ++ [s] →
  (loadFiles loader w).2 = None
  ∧ last (migrations (loadFiles loader w).1) = num_or_null (Some (id s))
  ∧ steps (migrations (loadFiles loader w).1) = l ++ [s]
  ∧ progress (loadFiles loader w).1 = progress w
  ∧ db (loadFiles loader w).1 = db w
  ∧ clock (loadFiles loader w).1 = clock w.
Proof.
  intros H. unfold loadFiles. by rewrite Array_sort_steps, H, steps_at_last.
Qed.

Lemma loadFiles_frame w :
  progress (loadFiles loader w).1 = progress w
  ∧ db (loadFiles loader w).1 = db w
  ∧ clock (loadFiles loader w).1 = clock w.
Proof. unfold loadFiles. by destruct (steps_at _ _). Qed.

End LoadMore.

(** * A whole run *)

Section WholeRun.

Variable patience : nat.

Lemma logger_info_frame w e :
  progress (logger_info w e) = progress w ∧ db (logger_info w e) = db w
  ∧ clock (logger_info w e) = clock w
  ∧ migrations (logger_info w e) = migrations w.
Proof. done. Qed.

Lemma executeMigrations_frame w up_to :
  untouched w (executeMigrations w up_to).1.
Proof. unfold executeMigrations, untouched. by destruct (last (migrations w)). Qed.

Lemma doMigrations_frame loader w up_to :
  untouched w (doMigrations loader w up_to).1.
Proof.
  unfold doMigrations.
  destruct (negb (loaded (migrations w))); [|apply executeMigrations_frame].
  destruct (loadFiles_frame loader w) as (Hp & Hd & Hc).
  destruct (loadFiles loader w) as [w' [e|]]; simpl in *.
  - unfold untouched. by rewrite Hp, Hd, Hc.
  - destruct (executeMigrations_frame w' (num_or_null up_to))
      as (H1 & H2 & H3).
    unfold untouched. by rewrite H1, H2, H3, Hp, Hd, Hc.
Qed.

(** A run over a store it can work through, from the first query to the
    callback. *)
Lemma execute_completes w up_to l :
  last (migrations w) = Some l →
  ready patience (steps (migrations w)) (num_or up_to l) w →
  no_faults (db w) →
  ∃ fuel w',
    run patience fuel (executeMigrations w up_to) = (w', Called None)
    ∧ done (progress w')
      = done (progress w)
        + size (candidates (num_or up_to l - 1) (docs (db w)))
    ∧ written (progress w')
      = written (progress w)
        + size (flagged_candidates patience (steps (migrations w))
                  (num_or up_to l) (docs (db w)))
    ∧ total (progress w')
      = size (candidates (num_or up_to l - 1) (docs (db w)))
    ∧ docs (db w')
      = migrated patience (steps (migrations w)) (num_or up_to l)
        <$> docs (db w)
    ∧ timer_cancelled w'
    ∧ head (log w')
      = Some (LogSummary (done (progress w')) (written (progress w')))
    ∧ migrations w' = migrations w
    ∧ no_faults (db w').
Proof.
  intros Hlast Hready Hnf. set (T := num_or up_to l) in *.
  destruct (view_no_faults (db w) (T - 1) None Hnf) as (Hres & Hnf' & Hdocs).
  destruct (view (db w) (T - 1) None) as [d' res] eqn:Hview.
  cbn [fst snd] in Hres, Hnf', Hdocs. subst res.
  set (w1 := (on_count (logger_info w (LogStart T)) T).1).
  assert (on_count (logger_info w (LogStart T)) T = (w1, AwaitPage T 512))
    as Hcount.
  { unfold w1, on_count. simpl. by rewrite Hview. }
  assert (docs (db w1) = docs (db w) ∧ view_errors (db w1) = view_errors d'
          ∧ migrations w1 = migrations w
          ∧ done (progress w1) = done (progress w)
          ∧ written (progress w1) = written (progress w)
          ∧ total (progress w1) = size (candidates (T - 1) (docs (db w)))
          ∧ intervalId (progress w1) = Some (next_timer (clock w))
          ∧ active (clock w1) = {[next_timer (clock w)]} ∪ active (clock w))
    as (Hd1 & He1 & Hm1 & Hdn1 & Hw1 & Ht1 & Hi1 & Ha1).
  { unfold w1, on_count. simpl. rewrite Hview. simpl.
    by rewrite Hdocs, ?length_fmap, ?length_map_to_list. }
  destruct Hready as (Hins & _ & Hok & Hadv).
  assert (insert_errors (db w1) = insert_errors (db w)) as Hi1'.
  { unfold w1, on_count. simpl. rewrite Hview. simpl.
    pose proof (view_inserts (db w) (T - 1) None) as Hv.
    by rewrite Hview in Hv. }
  destruct (pages_complete patience (steps (migrations w)) T 512 ltac:(lia)
              (size (candidates (T - 1) (docs (db w1)))) w1 eq_refl)
    as (fuel & w' & Hrun & Hdn & Hw & Ht & Hi & Hdocs' & Hcl & Hlog & Hm
        & Hnf2).
  { unfold ready, no_insert_faults. by rewrite Hd1, Hm1, Hi1'. }
  { unfold no_faults. by rewrite He1. }
  exists (1 + fuel), w'. rewrite run_add.
  replace (run patience 1 (executeMigrations w up_to))
    with (w1, AwaitPage T 512)
    by (unfold executeMigrations; rewrite Hlast; simpl; by rewrite <- Hcount).
  split; [done|].
  rewrite Hdn, Hw, Ht, Hdocs', Hd1, Hdn1, Hw1, Ht1.
  do 4 (split; [done|]).
  split; [|split; [rewrite Hlog; simpl; by rewrite Hdn, Hw, Hd1, Hdn1, Hw1|];
           split; [by rewrite Hm, Hm1|done]].
  intros i. rewrite Hi, Hi1, Hcl, Hi1. simpl. intros [= <-].
  apply not_elem_of_difference. right. by apply elem_of_singleton.
Qed.

(** A run over a store with no document below the target. *)
Lemma quiet_run w T :
  no_faults (db w) →
  (∀ k d, docs (db w) !! k = Some d → (T ≤ version_of d)%Z) →
  ∃ w',
    run patience 2 (w, AwaitCount T) = (w', Called None)
    ∧ docs (db w') = docs (db w)
    ∧ done (progress w') = done (progress w)
    ∧ written (progress w') = written (progress w)
    ∧ total (progress w') = 0
    ∧ timer_cancelled w'.
Proof.
  intros Hnf Hall.
  assert (∀ limit, rows_of (T - 1) limit (docs (db w)) = []) as Hrows.
  { intros limit. unfold rows_of.
    assert (candidates (T - 1) (docs (db w)) = ∅) as ->.
    { apply map_empty. intros k. apply map_lookup_filter_None. right.
      intros d Hd. specialize (Hall k d Hd). simpl. lia. }
    rewrite map_to_list_empty. simpl. destruct limit; [apply take_nil|done]. }
  destruct (view_no_faults (db w) (T - 1) None Hnf) as (Hres & Hnf1 & Hdocs1).
  destruct (view (db w) (T - 1) None) as [d1 res1] eqn:Hview1.
  cbn [fst snd] in Hres, Hnf1, Hdocs1. subst res1. rewrite Hrows in Hview1.
  destruct (view_no_faults d1 (T - 1) (Some 512) Hnf1)
    as (Hres & Hnf2 & Hdocs2).
  destruct (view d1 (T - 1) (Some 512)) as [d2 res2] eqn:Hview2.
  cbn [fst snd] in Hres, Hnf2, Hdocs2. subst res2.
  rewrite Hdocs1, Hrows in Hview2.
  eexists. simpl. unfold on_count. rewrite Hview1. simpl.
  unfold treatDocuments. simpl. rewrite Hview2. simpl.
  split; [done|]. simpl. split; [congruence|]. do 3 (split; [done|]).
  intros i [= <-]. simpl.
  apply not_elem_of_difference. right. by apply elem_of_singleton.
Qed.

End WholeRun.

(** * A run over a stuck document *)

Section Stuck.

Variables (patience : nat) (steps0 : list step) (T : Z) (r0 : document).

Hypothesis Hstuck : stuck steps0 T r0.
Hypothesis Hkeeps : keeps_id patience steps0 T.

Lemma stuck_returns_itself d' m :
  migrateDocument patience steps0 r0 T JUndefined = Returned d' m → d' = r0.
Proof.
  destruct Hstuck as (_ & m0 & Hm & Hup).
  destruct patience as [|p]; [done|].
  rewrite (migrate_stop_no_up p steps0 r0 T JUndefined m0 Hm Hup).
  by intros [= <- _].
Qed.

Lemma stuck_page_not_empty lim (store : gmap string document) :
  0 < lim → store !! doc_id r0 = Some r0 →
  rows_of (T - 1) (Some lim) store ≠ [].
Proof.
  intros Hlim Hr0 Hnil. unfold rows_of in Hnil.
  apply take_nil_inv in Hnil as [?|Hnil]; [lia|].
  apply fmap_nil_inv, map_to_list_empty_iff in Hnil.
  assert (candidates (T - 1) store !! doc_id r0 = Some r0) as Hc.
  { apply candidates_lookup. split; [done|]. destruct Hstuck. lia. }
  rewrite Hnil in Hc. by rewrite lookup_empty in Hc.
Qed.

Lemma stuck_inv_next c c' :
  stuck_inv steps0 T r0 c → next patience c = Some c' →
  stuck_inv steps0 T r0 c'.
Proof.
  destruct c as [w k]. intros (Hnf & Hsteps & Hok & Hr0 & Hk) Hnext.
  simpl in *.
  destruct k as [t|t lim|t lim [|r rows]| | |]; simpl in Hnext; try done.
  - (* the count query answers *)
    injection Hnext as <-. subst t. unfold on_count.
    destruct (view_no_faults (db w) (T - 1) None Hnf) as (Hres & Hnf' & Hdocs).
    destruct (view (db w) (T - 1) None) as [d' res].
    cbn [fst snd] in Hres, Hnf', Hdocs. subst res.
    unfold stuck_inv. simpl. rewrite Hdocs. repeat split; try done. lia.
  - (* a page query answers *)
    injection Hnext as <-. destruct Hk as [-> Hlim]. unfold treatDocuments.
    destruct (view_no_faults (db w) (T - 1) (Some lim) Hnf)
      as (Hres & Hnf' & Hdocs).
    destruct (view (db w) (T - 1) (Some lim)) as [d' res].
    cbn [fst snd] in Hres, Hnf', Hdocs. subst res.
    pose proof (stuck_page_not_empty lim (docs (db w)) Hlim Hr0) as Hne.
    assert (∀ r, r ∈ rows_of (T - 1) (Some lim) (docs (db w)) →
                 doc_id r = doc_id r0 → r = r0) as Hrows.
    { intros r Hr Hid. apply (rows_of_elem _ _ _ _ Hok) in Hr as [Hr _].
      rewrite Hid, Hr0 in Hr. by injection Hr. }
    destruct (rows_of (T - 1) (Some lim) (docs (db w))) as [|r rows]; [done|].
    unfold stuck_inv. simpl. rewrite Hdocs. by repeat split.
  - (* the page is drained *)
    injection Hnext as <-. destruct Hk as (-> & Hlim & _).
    unfold stuck_inv. simpl. by repeat split.
  - (* one more row *)
    destruct Hk as (-> & Hlim & Hrows).
    destruct (treat_row patience w T r) as [w'|k'] eqn:Hrow;
      injection Hnext as <-.
    + apply treat_row_effect in Hrow
        as (d' & m & Hmig & Hdocs & He & _ & _ & Hm & _).
      rewrite Hsteps in Hmig.
      unfold stuck_inv, no_faults. simpl. rewrite He, Hm.
      split; [done|]. split; [done|].
      assert (store_ok (docs (db w'))
              ∧ docs (db w') !! doc_id r0 = Some r0) as [Hok' Hr0'].
      { destruct Hdocs as [-> | ->]; [|done].
        split; [by apply store_ok_insert|].
        destruct (decide (doc_id d' = doc_id r0)) as [Heq|Hne].
        - assert (r = r0) as ->.
          { apply Hrows; [by left|]. by rewrite <- (Hkeeps _ _ _ Hmig). }
          rewrite (stuck_returns_itself _ _ Hmig). apply lookup_insert_eq.
        - by rewrite lookup_insert_ne. }
      do 2 (split; [done|]). split; [done|]. split; [done|].
      intros r' Hr'. apply Hrows. by right.
    + unfold stuck_inv. simpl. unfold treat_row in Hrow.
      destruct (migrateDocument _ _ _ _ _) as [? ?|[]|]; simplify_eq;
        by repeat split.
Qed.

Lemma stuck_inv_reachable c c' :
  stuck_inv steps0 T r0 c → rtc (step_to patience) c c' →
  stuck_inv steps0 T r0 c'.
Proof.
  intros Hc Hrun. eapply (run_keeps patience (stuck_inv steps0 T r0)); [| |done..].
  - apply stuck_inv_next.
  - intros w k. by destruct k.
Qed.

End Stuck.

(** * Further properties: the chain *)

(** A chain hands a document back only where it cannot go on: the document
    is at or above the target, or the step at its version has no [up]
    function. *)
Theorem chain_hands_back_only_at_rest :
  ∀ fuel steps (D : document) (T : Z) modified D' modified',
    migrateDocument fuel steps D T modified = Returned D' modified' →
    (T ≤ version_of D')%Z
    ∨ ∃ m, steps_at steps (version_of D') = Some m ∧ up m = None.
Proof. intros. by eapply returned_at_rest. Qed.

Lemma chain_hands_back_only_at_rest_witness :
  (2 ≤ version_of {| doc_id := "a"; migration_version := Some 2%Z;
                     fields := {["x" := VNum 1]} |})%Z
  ∨ ∃ m, steps_at Examples.scenarioA
           (version_of {| doc_id := "a"; migration_version := Some 2%Z;
                          fields := {["x" := VNum 1]} |}) = Some m
         ∧ up m = None.
Proof.
  exact (chain_hands_back_only_at_rest 3 Examples.scenarioA
           (Examples.blank "a" (Some 0%Z)) 2 JUndefined _ _ scenarioA_run).
Defined.







(** A step that is stored at the index of its own id, below the target, and
    whose transform only yields falsy values, leaves the document at the
    version it had: the chain of a document at that version never calls its
    callback, however many rounds it is followed for.  (Whether the program
    then goes round for ever or ends on a stack overflow depends on when the
    transform calls back; the statement is about the callback only.) *)
Theorem self_stamping_step_never_calls_back :
  ∀ steps (T : Z) m f,
    steps_at steps (id m) = Some m → up m = Some f →
    (∀ d, truthy (f d) = false) → (id m < T)%Z →
    ∀ fuel (D : document) modified,
      version_of D = id m →
      calls_back (migrateDocument fuel steps D T modified) = false.
Proof.
  intros steps T m f Hm Hup Hf Hlt fuel D modified Hv.
  by rewrite (self_stamping_loops steps T m f Hm Hup Hf Hlt fuel D modified Hv).
Qed.

Lemma self_stamping_step_never_calls_back_witness :
  calls_back
    (migrateDocument 100 Loops.self_stamping (Examples.blank "a" None) 1
       JUndefined)
  = false.
Proof.
  apply (self_stamping_step_never_calls_back Loops.self_stamping 1
           {| id := 0; up := Some Examples.yield_null |} Examples.yield_null);
    reflexivity.
Defined.

(** When every transform a chain applies leaves the object it is handed as
    it found it and yields a falsy value (null, undefined, false, 0, the
    empty string), the document handed back has the [_id] and the fields of
    the document handed in: only the stamp can differ. *)
Theorem untouched_falsy_chain_keeps_document :
  ∀ fuel steps (D : document) (T : Z) modified D' modified',
    Forall (λ fd, in_place fd.1 fd.2 = fd.2 ∧ truthy (fd.1 fd.2) = false)
      (applications fuel steps D T) →
    migrateDocument fuel steps D T modified = Returned D' modified' →
    doc_id D' = doc_id D ∧ fields D' = fields D.
Proof. intros. by eapply quiet_chain_frame. Qed.

Lemma untouched_falsy_chain_keeps_document_witness :
  doc_id (Examples.blank "a" (Some 1%Z)) = doc_id (Examples.blank "a" None)
  ∧ fields (Examples.blank "a" (Some 1%Z)) = fields (Examples.blank "a" None).
Proof.
  apply (untouched_falsy_chain_keeps_document 3 (Worlds.load_undefined [])
           (Examples.blank "a" None) 1 JUndefined
           (Examples.blank "a" (Some 1%Z)) (JBool true)).
  - constructor; [by split|constructor].
  - vm_compute. reflexivity.
Defined.

(** A transform that yields a truthy primitive (true, a number other than 0,
    a string that is not empty) makes the call throw: the stamp of line 82
    is an assignment to a property of a primitive, in strict mode. *)
Theorem truthy_primitive_yield_throws :
  ∀ fuel steps (D : document) (T : Z) modified m f p,
    (version_of D < T)%Z →
    steps_at steps (version_of D) = Some m → up m = Some f →
    f D = JPrim p → truthy_value p = true →
    migrateDocument (S fuel) steps D T modified = Threw TypeError.
Proof.
  intros fuel steps D T modified m f p Hlt Hm Hup Hf Hp.
  rewrite migrate_unfold. cbv zeta. apply Z.ltb_lt in Hlt.
  rewrite Hlt, Hm, Hup, Hf. unfold js_or. simpl. by rewrite Hp.
Qed.

Lemma truthy_primitive_yield_throws_witness :
  migrateDocument 4 Loops.truthy_step (Examples.blank "a" None) 1 JUndefined
  = Threw TypeError.
Proof.
  apply (truthy_primitive_yield_throws 3 Loops.truthy_step
           (Examples.blank "a" None) 1 JUndefined
           {| id := 1; up := Some Loops.yield_true |} Loops.yield_true
           (VBool true)); reflexivity.
Defined.

(** * Further properties: the batch run *)

Lemma started_ready : ready 5 (steps (migrations Runs.started)) 2 Runs.started.
Proof.
  split; [by apply Forall_nil|]. split; [done|]. split.
  - intros k d. simpl. rewrite lookup_singleton_Some. by intros [<- <-].
  - intros d. simpl. rewrite lookup_singleton_Some. intros [_ <-] _.
    eexists _, _. split; [vm_compute; reflexivity|].
    split; [reflexivity|]. vm_compute. discriminate.
Qed.

Lemma started_no_faults : no_faults (db Runs.started).
Proof. by apply Forall_nil. Qed.

(** When the registry's [last] is set, no query and no insert of the store
    fails, the store keeps every document under its [_id] and the chain of
    every document below the target advances it to the target or beyond
    (the world is [ready]), the run ends with the callback called without an
    error.  By then [done] has grown by the number of documents that were
    below the target, which is also [total]; [written] has grown by the
    number of those whose chain set the flag; no document of the store is
    below the target; the timer is cancelled. *)
Theorem run_completes_and_counts :
  ∀ patience w (up_to : option Z) (l : Z),
    last (migrations w) = Some l →
    ready patience (steps (migrations w)) (num_or up_to l) w →
    no_faults (db w) →
    ∃ fuel w',
      run patience fuel (executeMigrations w up_to) = (w', Called None)
      ∧ done (progress w')
        = done (progress w)
          + size (candidates (num_or up_to l - 1) (docs (db w)))
      ∧ total (progress w')
        = size (candidates (num_or up_to l - 1) (docs (db w)))
      ∧ written (progress w')
        = written (progress w)
          + size (flagged_candidates patience (steps (migrations w))
                    (num_or up_to l) (docs (db w)))
      ∧ (∀ k d, docs (db w') !! k = Some d → (num_or up_to l ≤ version_of d)%Z)
      ∧ timer_cancelled w'.
Proof.
  intros patience w up_to l Hlast Hready Hnf.
  destruct (execute_completes patience w up_to l Hlast Hready Hnf)
    as (fuel & w' & Hrun & Hd & Hw & Ht & Hdocs & Htimer & _).
  exists fuel, w'. do 4 (split; [done|]). split; [|done].
  intros k d. rewrite Hdocs, lookup_fmap_Some.
  intros (d0 & <- & Hd0). destruct Hready as (_ & _ & Hok & Hadv).
  unfold migrated. destruct (decide _) as [Hlt|]; [|lia].
  destruct (Hadv d0) as (d' & m & -> & _ & Hup); [|done..].
  by rewrite (Hok _ _ Hd0).
Qed.

Lemma run_completes_and_counts_witness :
  ∃ fuel w',
    run 5 fuel (executeMigrations Runs.started None) = (w', Called None)
    ∧ done (progress w') = 1 ∧ total (progress w') = 1
    ∧ written (progress w') = 1.
Proof.
  destruct (run_completes_and_counts 5 Runs.started None 2 eq_refl
              started_ready started_no_faults)
    as (fuel & w' & Hrun & Hd & Ht & Hw & _).
  exists fuel, w'. split; [exact Hrun|].
  split; [exact Hd|]. split; [exact Ht|exact Hw].
Defined.

(** Under the same conditions (no query and no insert fails, the world is
    [ready]), the store the run leaves holds, under each key, the document
    the chain hands back for a document that was below the target, and the
    document itself otherwise; no key is added. *)
Theorem run_stores_each_chain_result :
  ∀ patience w (up_to : option Z) (l : Z),
    last (migrations w) = Some l →
    ready patience (steps (migrations w)) (num_or up_to l) w →
    no_faults (db w) →
    ∃ fuel w',
      run patience fuel (executeMigrations w up_to) = (w', Called None)
      ∧ (∀ k d, docs (db w) !! k = Some d → (version_of d < num_or up_to l)%Z →
           ∃ d' modified,
             migrateDocument patience (steps (migrations w)) d
               (num_or up_to l) JUndefined = Returned d' modified
             ∧ docs (db w') !! k = Some d')
      ∧ (∀ k d, docs (db w) !! k = Some d → (num_or up_to l ≤ version_of d)%Z →
           docs (db w') !! k = Some d)
      ∧ (∀ k, docs (db w) !! k = None → docs (db w') !! k = None).
Proof.
  intros patience w up_to l Hlast Hready Hnf.
  destruct (execute_completes patience w up_to l Hlast Hready Hnf)
    as (fuel & w' & Hrun & _ & _ & _ & Hdocs & _).
  exists fuel, w'. split; [done|].
  destruct Hready as (_ & _ & Hok & Hadv). rewrite Hdocs.
  split; [|split].
  - intros k d Hd Hlt. destruct (Hadv d) as (d' & m & Hmig & _); [|done|].
    { by rewrite (Hok _ _ Hd). }
    exists d', m. split; [done|]. rewrite lookup_fmap, Hd. simpl.
    unfold migrated. rewrite Hmig. by destruct (decide _).
  - intros k d Hd Hge. rewrite lookup_fmap, Hd. simpl.
    unfold migrated. destruct (decide _); [lia|done].
  - intros k Hk. by rewrite lookup_fmap, Hk.
Qed.

Lemma run_stores_each_chain_result_witness :
  ∃ fuel w',
    run 5 fuel (executeMigrations Runs.started None) = (w', Called None)
    ∧ docs (db w') !! "a"
      = Some {| doc_id := "a"; migration_version := Some 2%Z;
                fields := {["x" := VNum 1]} |}.
Proof.
  destruct (run_stores_each_chain_result 5 Runs.started None 2 eq_refl
              started_ready started_no_faults)
    as (fuel & w' & Hrun & Hlow & _).
  exists fuel, w'. split; [exact Hrun|].
  destruct (Hlow "a" (Examples.blank "a" None)) as (d' & m & Hmig & Hd');
    [reflexivity|reflexivity|].
  vm_compute in Hmig. injection Hmig as <- _. exact Hd'.
Defined.

(** When the registry's [last] is set, no query fails and no document of the
    store is below the target, the run ends after two queries: the store,
    [done] and [written] are as before, [total] is 0 and the timer is
    cancelled. *)
Theorem up_to_date_run_is_noop :
  ∀ patience w (up_to : option Z) (l : Z),
    last (migrations w) = Some l →
    no_faults (db w) →
    (∀ k d, docs (db w) !! k = Some d → (num_or up_to l ≤ version_of d)%Z) →
    ∃ w',
      run patience 2 (executeMigrations w up_to) = (w', Called None)
      ∧ docs (db w') = docs (db w)
      ∧ done (progress w') = done (progress w)
      ∧ written (progress w') = written (progress w)
      ∧ total (progress w') = 0
      ∧ timer_cancelled w'.
Proof.
  intros patience w up_to l Hlast Hnf Hall.
  unfold executeMigrations. rewrite Hlast. cbv zeta.
  by apply (quiet_run patience
              (logger_info w (LogStart (num_or up_to l))) (num_or up_to l)).
Qed.

Lemma up_to_date_run_is_noop_witness :
  ∃ w',
    run 5 2 (executeMigrations Runs.migrated_store None) = (w', Called None)
    ∧ docs (db w') = docs (db Runs.migrated_store)
    ∧ done (progress w') = done (progress Runs.migrated_store)
    ∧ written (progress w') = written (progress Runs.migrated_store)
    ∧ total (progress w') = 0
    ∧ timer_cancelled w'.
Proof.
  apply (up_to_date_run_is_noop 5 Runs.migrated_store None 2).
  - reflexivity.
  - by apply Forall_nil.
  - intros k d. simpl. rewrite lookup_singleton_Some. intros [_ <-].
    vm_compute. discriminate.
Defined.

(** Under the conditions of a run that completes (no query and no insert
    fails, the world is [ready]), running again to the same target is a run
    of two queries that stores nothing and counts nothing: a migration can
    be run again after it went through. *)
Theorem second_run_is_noop :
  ∀ patience w (up_to : option Z) (l : Z),
    last (migrations w) = Some l →
    ready patience (steps (migrations w)) (num_or up_to l) w →
    no_faults (db w) →
    ∃ fuel w' w'',
      run patience fuel (executeMigrations w up_to) = (w', Called None)
      ∧ run patience 2 (executeMigrations w' up_to) = (w'', Called None)
      ∧ docs (db w'') = docs (db w')
      ∧ done (progress w'') = done (progress w')
      ∧ written (progress w'') = written (progress w')
      ∧ total (progress w'') = 0.
Proof.
  intros patience w up_to l Hlast Hready Hnf.
  destruct (execute_completes patience w up_to l Hlast Hready Hnf)
    as (fuel & w' & Hrun & _ & _ & _ & Hdocs & _ & _ & Hm & Hnf').
  assert (∀ k d, docs (db w') !! k = Some d → (num_or up_to l ≤ version_of d)%Z)
    as Hall.
  { intros k d. rewrite Hdocs, lookup_fmap_Some.
    intros (d0 & <- & Hd0). destruct Hready as (_ & _ & Hok & Hadv).
    unfold migrated. destruct (decide _) as [Hlt|]; [|lia].
    destruct (Hadv d0) as (d' & m & -> & _ & Hup); [|done..].
    by rewrite (Hok _ _ Hd0). }
  assert (last (migrations w') = Some l) as Hlast' by by rewrite Hm.
  destruct (quiet_run patience (logger_info w' (LogStart (num_or up_to l)))
              (num_or up_to l) Hnf' Hall)
    as (w'' & Hrun2 & Hd2 & Hdn2 & Hw2 & Ht2 & _).
  exists fuel, w', w''. split; [done|]. split; [|done].
  unfold executeMigrations. by rewrite Hlast'.
Qed.

Lemma second_run_is_noop_witness :
  ∃ fuel w' w'',
    run 5 fuel (executeMigrations Runs.started None) = (w', Called None)
    ∧ run 5 2 (executeMigrations w' None) = (w'', Called None)
    ∧ docs (db w'') = docs (db w')
    ∧ done (progress w'') = done (progress w')
    ∧ written (progress w'') = written (progress w')
    ∧ total (progress w'') = 0.
Proof.
  exact (second_run_is_noop 5 Runs.started None 2 eq_refl
           started_ready started_no_faults).
Defined.

(** When the store holds a document below the target whose step has no [up]
    function, no query fails, and the chains keep the [_id] of their
    documents, the caller's callback is never called: every page holds that
    document again, so the run goes on until a chain throws or stalls, if
    ever. *)
Theorem stuck_document_blocks_callback :
  ∀ patience w (up_to : option Z) (l : Z) (r0 : document) c,
    last (migrations w) = Some l →
    no_faults (db w) → store_ok (docs (db w)) →
    keeps_id patience (steps (migrations w)) (num_or up_to l) →
    docs (db w) !! doc_id r0 = Some r0 →
    stuck (steps (migrations w)) (num_or up_to l) r0 →
    rtc (step_to patience) (executeMigrations w up_to) c →
    called c.2 = false.
Proof.
  intros patience w up_to l r0 c Hlast Hnf Hok Hkeeps Hr0 Hstuck Hrun.
  assert (stuck_inv (steps (migrations w)) (num_or up_to l) r0 c) as Hinv.
  { eapply stuck_inv_reachable; [done|done| |exact Hrun].
    unfold stuck_inv, executeMigrations. rewrite Hlast. simpl.
    by repeat split. }
  destruct Hinv as (_ & _ & _ & _ & Hk). by destruct c.2.
Qed.

Lemma stamped_keeps_id : keeps_id 5 (steps (migrations Runs.stamped)) 1.
Proof.
  intros d d' m. rewrite migrate_unfold. cbv zeta.
  destruct (version_of d <? 1)%Z; [|by intros [= <- _]].
  unfold steps_at. destruct (version_of d <? 0)%Z; [done|].
  destruct (Z.to_nat (version_of d)) as [|n]; simpl; [by intros [= <- _]|done].
Qed.

Lemma stuck_document_blocks_callback_witness :
  called (run 5 40 (executeMigrations Runs.stamped None)).2 = false.
Proof.
  apply (stuck_document_blocks_callback 5 Runs.stamped None 1
           (Examples.blank "a" None)).
  - reflexivity.
  - by apply Forall_nil.
  - intros k d. simpl. rewrite lookup_singleton_Some. by intros [<- <-].
  - exact stamped_keeps_id.
  - reflexivity.
  - split; [vm_compute; reflexivity|].
    exists {| id := 1; up := None |}. by split.
  - apply run_reachable.
Defined.

Lemma counters_grow patience c c' :
  rtc (step_to patience) c c' →
  done (progress c.1) ≤ done (progress c'.1)
  ∧ written (progress c.1) ≤ written (progress c'.1).
Proof.
  induction 1 as [|c1 c2 c3 Hstep _ IH]; [done|].
  assert (done (progress c1.1) ≤ done (progress c2.1)
          ∧ written (progress c1.1) ≤ written (progress c2.1)) as [? ?].
  { destruct Hstep as [c1 c2 Hnext|w k _]; [|done].
    by apply (next_counters_grow patience). }
  lia.
Qed.

(** [done] and [written] never decrease.  The entry point does not reset
    them: at every point of a run they are at least what they were before
    the call.  And between any point of a run and any later point, whatever
    callbacks and ticks lie between, neither counter goes down. *)
Theorem counters_never_decrease :
  ∀ loader patience w (up_to : option Z) c c',
    rtc (step_to patience) (doMigrations loader w up_to) c →
    rtc (step_to patience) c c' →
    done (progress w) ≤ done (progress c.1)
    ∧ written (progress w) ≤ written (progress c.1)
    ∧ done (progress c.1) ≤ done (progress c'.1)
    ∧ written (progress c.1) ≤ written (progress c'.1).
Proof.
  intros loader patience w up_to c c' Hrun Hlater.
  destruct (counters_grow patience _ _ Hrun) as [H1 H2].
  destruct (counters_grow patience _ _ Hlater) as [H3 H4].
  destruct (doMigrations_frame loader w up_to) as (Hp & _).
  rewrite Hp in H1, H2. done.
Qed.

Lemma counters_never_decrease_witness :
  done (progress (fresh Worlds.one_doc))
  ≤ done (progress (call Worlds.loadA 5 2 (fresh Worlds.one_doc) None).1)
  ∧ written (progress (fresh Worlds.one_doc))
    ≤ written (progress (call Worlds.loadA 5 2 (fresh Worlds.one_doc) None).1)
  ∧ done (progress (call Worlds.loadA 5 2 (fresh Worlds.one_doc) None).1)
    ≤ done (progress (call Worlds.loadA 5 10 (fresh Worlds.one_doc) None).1)
  ∧ written (progress (call Worlds.loadA 5 2 (fresh Worlds.one_doc) None).1)
    ≤ written
        (progress (call Worlds.loadA 5 10 (fresh Worlds.one_doc) None).1).
Proof.
  apply (counters_never_decrease Worlds.loadA 5 (fresh Worlds.one_doc) None
           (call Worlds.loadA 5 2 (fresh Worlds.one_doc) None)
           (call Worlds.loadA 5 10 (fresh Worlds.one_doc) None)).
  - apply run_reachable.
  - change (call Worlds.loadA 5 10 (fresh Worlds.one_doc) None)
      with (run 5 8 (call Worlds.loadA 5 2 (fresh Worlds.one_doc) None)).
    apply run_reachable.
Defined.

(** When the caller's callback gets an error, the error is one of two: no
    migration was found, or the count query failed.  In both cases the run
    has counted nothing, stored nothing and started no timer. *)
Theorem error_means_nothing_ran :
  ∀ loader patience w (up_to : option Z) c msg,
    rtc (step_to patience) (doMigrations loader w up_to) c →
    c.2 = Called (Some msg) →
    reported msg ∧ untouched w c.1.
Proof.
  intros loader patience w up_to c msg Hrun Hmsg.
  assert (error_inv w c) as Hinv.
  { apply (run_keeps patience (error_inv w))
      with (c := doMigrations loader w up_to); [| |..|done].
    - intros c1 c2. apply error_inv_next.
    - intros w1 k. unfold error_inv. simpl. by destruct k as [| | |[]| |].
    - pose proof (doMigrations_frame loader w up_to) as Hframe.
      unfold error_inv, doMigrations in *.
      destruct (negb (loaded (migrations w))).
      + destruct (loadFiles loader w) as [w1 [e|]]; [done|].
        unfold executeMigrations in *.
        destruct (last (migrations w1)); simpl in *; [done|].
        split; [done|by left].
      + unfold executeMigrations in *.
        destruct (last (migrations w)); simpl in *; [done|].
        split; [done|by left]. }
  unfold error_inv in Hinv. rewrite Hmsg in Hinv. by destruct Hinv.
Qed.

Lemma error_means_nothing_ran_witness :
  reported "Unable to retrive data: boom"
  ∧ untouched (fresh Runs.failing_count)
      (call Worlds.loadA 5 10 (fresh Runs.failing_count) None).1.
Proof.
  apply (error_means_nothing_ran Worlds.loadA 5 (fresh Runs.failing_count)
           None (call Worlds.loadA 5 10 (fresh Runs.failing_count) None)).
  - apply run_reachable.
  - reflexivity.
Defined.

(** When the event loop hands out fresh timer ids, a run whose callback is
    called leaves the timers as it found them; a run that dies on an
    exception of a chain, or waits for a chain that never calls back, leaves
    its progress timer running. *)
Theorem callback_restores_timers :
  ∀ patience w (up_to : option Z) c,
    next_timer (clock w) ∉ active (clock w) →
    rtc (step_to patience) (executeMigrations w up_to) c →
    (∀ err, c.2 = Called err → active (clock c.1) = active (clock w))
    ∧ (c.2 = Crashed TypeError ∨ c.2 = Stalled → ticking c.1).
Proof.
  intros patience w up_to c Hfresh Hrun.
  assert (timer_inv (active (clock w)) c) as Hinv.
  { apply (run_keeps patience (timer_inv (active (clock w))))
      with (c := executeMigrations w up_to); [| |..|done].
    - intros c1 c2. apply timer_inv_next.
    - intros w1 k. unfold timer_inv. simpl. by destruct k.
    - unfold timer_inv, executeMigrations.
      by destruct (last (migrations w)). }
  unfold timer_inv in Hinv. split.
  - intros err Hk. by rewrite Hk in Hinv.
  - assert (own_timer (active (clock w)) c.1 → ticking c.1) as Hown.
    { intros (i & Hi & _ & Hact). exists i. split; [done|].
      rewrite Hact. apply elem_of_union. left. by apply elem_of_singleton. }
    intros [Hk|Hk]; rewrite Hk in Hinv; by apply Hown.
Qed.

Lemma callback_restores_timers_witness :
  (∀ err, (run 5 10 (executeMigrations Runs.started None)).2 = Called err →
          active (clock (run 5 10 (executeMigrations Runs.started None)).1)
          = active (clock Runs.started))
  ∧ ((run 5 10 (executeMigrations Runs.started None)).2 = Crashed TypeError
     ∨ (run 5 10 (executeMigrations Runs.started None)).2 = Stalled →
     ticking (run 5 10 (executeMigrations Runs.started None)).1).
Proof.
  apply (callback_restores_timers 5 Runs.started None).
  - apply (bool_decide_unpack _). vm_compute. exact I.
  - apply run_reachable.
Defined.

(** Once the count query has answered, [total] is the number of documents
    that were below the target when the run started, and it stays that
    number for the rest of the run, whatever the run stores. *)
Theorem total_is_start_snapshot :
  ∀ patience w (up_to : option Z) (l : Z) c,
    last (migrations w) = Some l →
    rtc (step_to patience) (executeMigrations w up_to) c →
    (∀ t, c.2 ≠ AwaitCount t) → (∀ msg, c.2 ≠ Called (Some msg)) →
    total (progress c.1)
    = size (candidates (num_or up_to l - 1) (docs (db w))).
Proof.
  intros patience w up_to l c Hlast Hrun Hcount Herr.
  assert (total_inv (size (candidates (num_or up_to l - 1) (docs (db w))))
            (docs (db w)) (num_or up_to l) c) as Hinv.
  { apply (run_keeps patience
             (total_inv (size (candidates (num_or up_to l - 1) (docs (db w))))
                (docs (db w)) (num_or up_to l)))
      with (c := executeMigrations w up_to); [| |..|done].
    - intros c1 c2. by apply total_inv_next.
    - intros w1 k. unfold total_inv. simpl. by destruct k as [| | |[]| |].
    - unfold total_inv, executeMigrations. by rewrite Hlast. }
  unfold total_inv in Hinv.
  destruct c.2 as [t|t lim|t lim rows|[msg|]| |] eqn:Hk; try done.
  - by destruct (Hcount t).
  - by destruct (Herr msg).
Qed.

Lemma total_is_start_snapshot_witness :
  total (progress (run 5 10 (executeMigrations Runs.started None)).1)
  = size (candidates (num_or None 2 - 1) (docs (db Runs.started))).
Proof.
  apply (total_is_start_snapshot 5 Runs.started None 2).
  - reflexivity.
  - apply run_reachable.
  - intros t. vm_compute. discriminate.
  - intros msg. vm_compute. discriminate.
Defined.

(** * Further properties: loading and the entry point *)

(** When the loader leaves a dense array of at least one and at most ten
    steps, [loadFiles] does not throw, keeps the steps in the order the
    loader left them, and sets [last] from the step at the end of the array,
    whatever the other ids are: to its id, or to null when that id is 0. *)
Theorem load_sets_last_from_final_step :
  ∀ loader w (l : list step) (s : step),
    loader (steps (migrations w)) = l ++ [s] →
    length (l ++ [s]) ≤ 10 →
    (loadFiles loader w).2 = None
    ∧ steps (migrations (loadFiles loader w).1) = l ++ [s]
    ∧ last (migrations (loadFiles loader w).1)
      = (if (id s =? 0)%Z then None else Some (id s)).
Proof.
  intros loader w l s H _.
  by destruct (loadFiles_last loader w l s H) as (-> & -> & -> & _).
Qed.

Lemma load_sets_last_from_final_step_witness :
  (loadFiles Worlds.load21 (fresh Worlds.one_doc)).2 = None
  ∧ steps (migrations (loadFiles Worlds.load21 (fresh Worlds.one_doc)).1)
    = [ {| id := 2; up := Some Examples.yield_null |} ]
      ++ [ {| id := 1; up := Some Examples.add_x |} ]
  ∧ last (migrations (loadFiles Worlds.load21 (fresh Worlds.one_doc)).1)
    = (if (1 =? 0)%Z then None else Some 1%Z).
Proof.
  apply (load_sets_last_from_final_step Worlds.load21 (fresh Worlds.one_doc)
           [ {| id := 2; up := Some Examples.yield_null |} ]
           {| id := 1; up := Some Examples.add_x |} eq_refl).
  simpl. lia.
Defined.

(** Called on an instance whose steps do not count as loaded, with migration
    files that register no step, the entry point throws a TypeError: the
    callback is not called, not even with [No migrations found]. *)
Theorem entry_point_throws_on_empty_registry :
  ∀ loader w (up_to : option Z),
    loaded (migrations w) = false →
    loader (steps (migrations w)) = [] →
    (doMigrations loader w up_to).2 = Crashed TypeError.
Proof.
  intros loader w up_to Hl Hnone. unfold doMigrations. rewrite Hl. simpl.
  pose proof (load_of_nothing_throws loader w Hnone) as H.
  by destruct (loadFiles loader w) as [w' [[]|]].
Qed.

Lemma entry_point_throws_on_empty_registry_witness :
  (doMigrations (λ _, []) (fresh Worlds.one_doc) None).2 = Crashed TypeError.
Proof.
  exact (entry_point_throws_on_empty_registry (λ _, [])
           (fresh Worlds.one_doc) None eq_refl eq_refl).
Defined.

(** When the step at the end of the loaded array has the id 0, the entry
    point reports [No migrations found], whatever the target and however
    many steps were loaded. *)
Theorem final_step_id_zero_reports_no_migrations :
  ∀ loader w (up_to : option Z) (l : list step) (s : step),
    loaded (migrations w) = false →
    loader (steps (migrations w)) = l ++ [s] → id s = 0%Z →
    (doMigrations loader w up_to).2 = Called (Some "No migrations found").
Proof.
  intros loader w up_to l s Hl Hsteps Hid. unfold doMigrations.
  rewrite Hl. simpl.
  destruct (loadFiles_last loader w l s Hsteps) as (Hok & Hlast & _).
  destruct (loadFiles loader w) as [w' [e|]]; [done|]. simpl in *.
  unfold executeMigrations. by rewrite Hlast, Hid.
Qed.

Lemma final_step_id_zero_reports_no_migrations_witness :
  (doMigrations (λ _, Loops.self_stamping) (fresh Worlds.one_doc)
     (Some 3%Z)).2
  = Called (Some "No migrations found").
Proof.
  exact (final_step_id_zero_reports_no_migrations (λ _, Loops.self_stamping)
           (fresh Worlds.one_doc) (Some 3%Z) []
           {| id := 0; up := Some Examples.yield_null |}
           eq_refl eq_refl eq_refl).
Defined.

(** When the first query of a run fails, the caller's callback gets an error
    that wraps the store's message, after that single query: it is not tried
    again. *)
Theorem count_failure_reaches_caller :
  ∀ loader patience w (up_to : option Z) w' (l : Z) err rest,
    after_load loader w = Some w' → last (migrations w') = Some l →
    view_errors (db w) = Some err :: rest →
    ∃ w'',
      run patience 1 (doMigrations loader w up_to)
      = (w'', Called (Some ("Unable to retrive data: " +:+ err)))
      ∧ view_errors (db w'') = rest.
Proof.
  intros loader patience w up_to w' l err rest Hload Hlast Herr.
  assert (db w' = db w) as Hdb.
  { unfold after_load in Hload.
    destruct (negb (loaded (migrations w))); [|by injection Hload as ->].
    destruct (loadFiles_frame loader w) as (_ & Hd & _).
    destruct (loadFiles loader w) as [w1 [e|]]; [done|].
    by injection Hload as <-. }
  assert (doMigrations loader w up_to
          = executeMigrations w' (num_or_null up_to)) as ->.
  { unfold doMigrations, after_load in *.
    destruct (negb (loaded (migrations w))); [|by injection Hload as ->].
    destruct (loadFiles loader w) as [w1 [e|]]; [done|].
    by injection Hload as ->. }
  unfold executeMigrations. rewrite Hlast. simpl.
  destruct (count_error_reaches_callback
              (logger_info w' (LogStart (num_or (num_or_null up_to) l)))
              (num_or (num_or_null up_to) l) err rest) as (Hk & He & _).
  { simpl. by rewrite Hdb. }
  eexists. split; [|exact He]. rewrite <- Hk. by destruct (on_count _ _).
Qed.

Lemma count_failure_reaches_caller_witness :
  ∃ w'',
    run 5 1 (doMigrations Worlds.loadA (fresh Runs.failing_count) None)
    = (w'', Called (Some "Unable to retrive data: boom"))
    ∧ view_errors (db w'') = [].
Proof.
  exact (count_failure_reaches_caller Worlds.loadA 5
           (fresh Runs.failing_count) None
           (loadFiles Worlds.loadA (fresh Runs.failing_count)).1 2 "boom" []
           eq_refl eq_refl eq_refl).
Defined.
